(** * node-ncbi gateways: a shallow embedding of
      src/gateways/createGateway.js and src/gateways/index.js

    The JavaScript of the two files is translated function by function.
    - A string is its sequence of UTF-16 code units ([list N]).
    - A parameter value is a number or a string. The numbers are the
      doubles whose value is an integer, and the infinities that [-] may
      give on them; [-] rounds as IEEE 754 does and Number::toString
      prints the shortest digits that give the double back.
    - A parameter bag is a JavaScript object: an association list kept in
      property-enumeration order, living in a heap and held by reference,
      because [_.extend] copies the reference of [args.params].
    - A method of [Gateway] is a computation over [this] and the world
      (the heap and the log of calls that leave the two modules: popsicle,
      the parser factory, the handler) that returns normally or throws. *)

From Stdlib Require Import String Ascii ZArith NArith List Decimal Lia.
From stdpp Require Import base numbers list gmap.

Local Open Scope N_scope.

(** ** Numbers *)

Module Double.

Local Open Scope Z_scope.

(** A Number whose value is an integer, or an infinity. *)
Inductive t : Type :=
  | Finite (z : Z)
  | Infinity (negative : bool).

(** The double nearest to the integer [x], ties to the even significand;
    an infinity from 2^1024 on. *)
Definition round (x : Z) : t :=
  let a := Z.abs x in
  if a <? 2 ^ 53 then Finite x
  else
    let e := Z.log2 a - 52 in
    let q := a / 2 ^ e in
    let r := a mod 2 ^ e in
    let half := 2 ^ (e - 1) in
    let up := (half <? r) || ((r =? half) && Z.odd q) in
    let m := (if up then q + 1 else q) * 2 ^ e in
    if 2 ^ 1024 <=? m then Infinity (x <? 0)
    else Finite (if x <? 0 then - m else m).

Definition rounds_to (x v : Z) : bool :=
  match round v with
  | Finite y => y =? x
  | Infinity _ => false
  end.

(** The integers that are doubles. *)
Definition is_double (z : Z) : bool := rounds_to z z.

(** [a - b] on integer-valued doubles. *)
Definition sub (a b : Z) : t := round (a - b).

(** Number::toString, steps 5 and following, for a positive integer-valued
    double [x]: the integer with the fewest significant digits that
    rounds to [x], the nearest to [x] when several do. [candidate] looks
    at the two multiples of [scale] around [x]. *)
Definition candidate (x scale : Z) : option Z :=
  let lo := x / scale * scale in
  let hi := lo + scale in
  match (0 <? lo) && rounds_to x lo, rounds_to x hi with
  | true, true =>
    if x - lo <? hi - x then Some lo
    else if hi - x <? x - lo then Some hi
    else if Z.even (lo / scale) then Some lo else Some hi
  | true, false => Some lo
  | false, true => Some hi
  | false, false => None
  end.

Fixpoint search (x scale : Z) (fuel : nat) : Z :=
  match fuel with
  | O => x
  | S fuel' =>
    match candidate x scale with
    | Some v => v
    | None => if scale <=? 1 then x else search x (scale / 10) fuel'
    end
  end.

Definition nb_digits (x : Z) : nat := Decimal.nb_digits (N.to_uint (Z.to_N x)).

Definition shortest (x : Z) : Z :=
  search x (10 ^ (Z.of_nat (nb_digits x) - 1)) (nb_digits x).

End Double.

(** ** Strings *)

Module JsString.

Definition jsstring := list N.

(** A literal: the code units of an ASCII string. *)
Definition u (s : string) : jsstring :=
  map N_of_ascii (list_ascii_of_string s).
Arguments u _%_string : simpl never.

Definition digit (d : N) : N := 48 + d.

Fixpoint uint_units (d : uint) : jsstring :=
  match d with
  | Nil => []
  | D0 r => digit 0 :: uint_units r
  | D1 r => digit 1 :: uint_units r
  | D2 r => digit 2 :: uint_units r
  | D3 r => digit 3 :: uint_units r
  | D4 r => digit 4 :: uint_units r
  | D5 r => digit 5 :: uint_units r
  | D6 r => digit 6 :: uint_units r
  | D7 r => digit 7 :: uint_units r
  | D8 r => digit 8 :: uint_units r
  | D9 r => digit 9 :: uint_units r
  end.

Definition decimal (x : Z) : jsstring := uint_units (N.to_uint (Z.to_N x)).

Fixpoint drop_zeros (s : jsstring) : jsstring :=
  match s with
  | c :: rest => if c =? 48 then drop_zeros rest else s
  | [] => []
  end.

Definition strip_trailing_zeros (s : jsstring) : jsstring :=
  rev (drop_zeros (rev s)).

(** Number::toString on a positive integer-valued double: up to 21
    digits the shortest digits padded with zeros, beyond that the
    exponent form. *)
Definition positive_to_string (x : Z) : jsstring :=
  let digits := decimal (Double.shortest x) in
  let n := length digits in
  if (n <=? 21)%nat then digits
  else
    let exponent := u "e+" ++ decimal (Z.of_nat n - 1) in
    match strip_trailing_zeros digits with
    | [] => []
    | [c] => c :: exponent
    | c :: rest => c :: u "." ++ rest ++ exponent
    end.

(** Number::toString on an integer-valued double. *)
Definition number_to_string (z : Z) : jsstring :=
  if (z =? 0)%Z then u "0"
  else if (z <? 0)%Z then u "-" ++ positive_to_string (- z)
  else positive_to_string z.

(** [String.prototype.substring(0, length - 1)]. *)
Definition drop_last_unit (s : jsstring) : jsstring := removelast s.

(** [Array.prototype.join] with separator [sep] on already rendered items. *)
Fixpoint join (sep : jsstring) (items : list jsstring) : jsstring :=
  match items with
  | [] => []
  | [x] => x
  | x :: rest => x ++ sep ++ join sep rest
  end.

End JsString.
Export JsString.

(** ** Completions *)

Inductive error : Type :=
  | URIError
  | Raised (payload : jsstring).

Inductive completion (A : Type) : Type :=
  | Normal (a : A)
  | Throw (e : error).
Arguments Normal {A} a.
Arguments Throw {A} e.

Definition cbind {A B} (c : completion A) (k : A → completion B) : completion B :=
  match c with
  | Normal a => k a
  | Throw e => Throw e
  end.

(** ** encodeURI (ECMA-262, Encode with uriReserved, uriUnescaped and [#]) *)

Module Uri.

Definition is_alpha (c : N) : bool :=
  ((65 <=? c) && (c <=? 90)) || ((97 <=? c) && (c <=? 122)).

Definition is_digit (c : N) : bool := (48 <=? c) && (c <=? 57).

(** uriMark: - _ . ! ~ * ' ( ) *)
Definition uri_mark : list N := [45; 95; 46; 33; 126; 42; 39; 40; 41].

(** uriReserved: ; / ? : @ & = + $ , *)
Definition uri_reserved : list N := [59; 47; 63; 58; 64; 38; 61; 43; 36; 44].

Definition mem (c : N) (l : list N) : bool := existsb (N.eqb c) l.

(** The set encodeURI leaves alone: reserved, unescaped and [#] (35). *)
Definition unescaped (c : N) : bool :=
  is_alpha c || is_digit c || mem c uri_mark || mem c uri_reserved || (c =? 35).

Definition is_high (c : N) : bool := (55296 <=? c) && (c <=? 56319).
Definition is_low (c : N) : bool := (56320 <=? c) && (c <=? 57343).

(** UTF16SurrogatePairToCodePoint. *)
Definition pair_code_point (hi lo : N) : N :=
  (hi - 55296) * 1024 + (lo - 56320) + 65536.

Definition utf8 (cp : N) : list N :=
  if cp <? 128 then [cp]
  else if cp <? 2048 then
    [N.lor 192 (N.shiftr cp 6); N.lor 128 (N.land cp 63)]
  else if cp <? 65536 then
    [N.lor 224 (N.shiftr cp 12);
     N.lor 128 (N.land (N.shiftr cp 6) 63);
     N.lor 128 (N.land cp 63)]
  else
    [N.lor 240 (N.shiftr cp 18);
     N.lor 128 (N.land (N.shiftr cp 12) 63);
     N.lor 128 (N.land (N.shiftr cp 6) 63);
     N.lor 128 (N.land cp 63)].

Definition hex_digit (d : N) : N := if d <? 10 then 48 + d else 55 + d.

(** One octet as [%XX], upper-case hexadecimal. *)
Definition percent (b : N) : jsstring :=
  [37; hex_digit (N.shiftr b 4); hex_digit (N.land b 15)].

Definition escape (cp : N) : jsstring := concat (map percent (utf8 cp)).

Fixpoint Encode (s : jsstring) : completion jsstring :=
  match s with
  | [] => Normal []
  | c :: rest =>
    if unescaped c then cbind (Encode rest) (λ r, Normal (c :: r))
    else if is_high c then
      match rest with
      | l :: rest' =>
        if is_low l
        then cbind (Encode rest') (λ r, Normal (escape (pair_code_point c l) ++ r))
        else Throw URIError
      | [] => Throw URIError
      end
    else if is_low c then Throw URIError
    else cbind (Encode rest) (λ r, Normal (escape c ++ r))
  end.

Definition encodeURI (s : jsstring) : completion jsstring := Encode s.

(** encodeURI in words, for the statements: the text with every
    character of the unescaped set left as it is and every other
    character (a surrogate pair counting for one) replaced by the [%XX]
    of its UTF-8 bytes. A lone surrogate, on which encodeURI throws, is
    left out. *)
Fixpoint percent_encode (s : jsstring) : jsstring :=
  match s with
  | [] => []
  | c :: rest =>
    if unescaped c then c :: percent_encode rest
    else if is_high c then
      match rest with
      | l :: rest' =>
        if is_low l then escape (pair_code_point c l) ++ percent_encode rest'
        else percent_encode rest
      | [] => []
      end
    else if is_low c then percent_encode rest
    else escape c ++ percent_encode rest
  end.

End Uri.
Export Uri.

(** ** Values and objects *)

(** A number whose value is the integer [z] (a double,
    [Double.is_double]), an infinity, or a string. *)
Inductive value : Type :=
  | VNum (z : Z)
  | VInf (negative : bool)
  | VStr (s : jsstring).

Definition number_value (d : Double.t) : value :=
  match d with
  | Double.Finite z => VNum z
  | Double.Infinity negative => VInf negative
  end.

#[global] Instance value_eq_dec : EqDecision value.
Proof. solve_decision. Defined.

(** ToString, as applied by [+] with a string and by [join]. *)
Definition ToString (v : value) : jsstring :=
  match v with
  | VNum z => number_to_string z
  | VInf negative => if negative then u "-Infinity" else u "Infinity"
  | VStr s => s
  end.

Module Obj.

(** Own enumerable properties in enumeration order. *)
Definition object := list (jsstring * value).

Definition keys (o : object) : list jsstring := map fst o.

Fixpoint get (k : jsstring) (o : object) : option value :=
  match o with
  | [] => None
  | (k', v) :: rest => if decide (k' = k) then Some v else get k rest
  end.

Definition has (k : jsstring) (o : object) : bool :=
  match get k o with Some _ => true | None => false end.

(** A key is an array index when it is the canonical decimal form of an
    integer below 2^32 - 1; such keys are enumerated first, ascending. *)
Definition array_index (k : jsstring) : option N :=
  match k with
  | [] => None
  | c :: rest =>
    if forallb is_digit k && (negb (c =? 48) || bool_decide (rest = []))
    then
      let n := fold_left (λ acc d, 10 * acc + (d - 48)) k 0 in
      if n <? 4294967295 then Some n else None
    else None
  end.

Fixpoint replace (k : jsstring) (v : value) (o : object) : object :=
  match o with
  | [] => []
  | (k', v') :: rest =>
    if decide (k' = k) then (k', v) :: rest else (k', v') :: replace k v rest
  end.

Fixpoint insert_index (i : N) (k : jsstring) (v : value) (o : object) : object :=
  match o with
  | [] => [(k, v)]
  | (k', v') :: rest =>
    match array_index k' with
    | Some j => if j <? i then (k', v') :: insert_index i k v rest
                else (k, v) :: o
    | None => (k, v) :: o
    end
  end.

(** The one key an object inherits a setter for, from Object.prototype. *)
Definition proto : jsstring := u "__proto__".

(** [o[k] = v] for a number or string [v]: an own property keeps its
    place and takes the value; a new property is created at its place in
    the enumeration order, but for [__proto__]: there the assignment
    runs the inherited setter, which ignores a value that is no object,
    and no property is created. *)
Definition set (k : jsstring) (v : value) (o : object) : object :=
  if has k o then replace k v o
  else if bool_decide (k = proto) then o
  else match array_index k with
       | Some i => insert_index i k v o
       | None => o ++ [(k, v)]
       end.

(** [o[k] = v] stores [v]: [k] is an own property, or any key but
    [__proto__]. *)
Definition assignable (k : jsstring) (o : object) : bool :=
  has k o || negb (bool_decide (k = proto)).

(** The properties of [o] but an own [__proto__]. *)
Definition without_proto (o : object) : object :=
  List.filter (λ kv, negb (bool_decide (kv.1 = proto))) o.

(** An object literal [{k1: v1, ..., kn: vn}]; a [__proto__] entry with
    a number or a string sets nothing. *)
Definition literal (props : list (jsstring * value)) : object :=
  fold_left (λ o kv, set kv.1 kv.2 o) props [].

(** underscore's [_.extend(obj, source)]: every enumerable property of
    [source], in enumeration order, is assigned on [obj]. *)
Definition extend (obj source : object) : object :=
  fold_left (λ o kv, set kv.1 kv.2 o) source obj.

End Obj.
Export Obj(object).

(** ** The world: a heap of parameter bags and a log of outside calls *)

Definition loc := positive.

Record request := Request { req_method : jsstring; req_url : jsstring }.

Record response := Response { status : Z; body : jsstring }.

(** What leaves the two modules: an HTTP request handed to popsicle, a
    call of [createParser], a call of the handler given to [get]. *)
Inductive event : Type :=
  | Http (r : request)
  | ParserCreated (body method : option jsstring)
  | HandlerCalled.

Record world := World { heap : gmap loc object; log : list event }.

Definition deref (w : world) (l : loc) : object := default [] (heap w !! l).

Definition store (l : loc) (o : object) (w : world) : world :=
  World (<[l := o]> (heap w)) (log w).

Definition emit (e : event) (w : world) : world :=
  World (heap w) (log w ++ [e]).

(** Evaluating an object literal allocates a new object. *)
Definition alloc (o : object) (w : world) : loc * world :=
  let l := fresh (dom (heap w)) in (l, store l o w).

(** ** Computations: state and exceptions *)

Definition M (S A : Type) : Type := S → completion A * S.

#[global] Instance M_ret {S} : MRet (M S) := λ A a s, (Normal a, s).

#[global] Instance M_bind {S} : MBind (M S) := λ A B k m s,
  match m s with
  | (Normal a, s') => k a s'
  | (Throw e, s') => (Throw e, s')
  end.

Definition throw {S A} (e : error) : M S A := λ s, (Throw e, s).

Definition lift {S A} (c : completion A) : M S A := λ s, (c, s).

(** ** A settled promise *)

Inductive promise (A : Type) : Type :=
  | Fulfilled (a : A)
  | Rejected (e : error)
  | Pending.
Arguments Fulfilled {A} a.
Arguments Rejected {A} e.
Arguments Pending {A}.

(** What [send] resolves with: the test-mode string or popsicle's response. *)
Inductive document : Type :=
  | DocText (s : jsstring)
  | DocResponse (r : response).

(** [document.body]; a string has no such property. *)
Definition document_body (d : document) : option jsstring :=
  match d with
  | DocText _ => None
  | DocResponse r => Some (body r)
  end.

(** ** createGateway.js *)

Module Settings.
Record t := Make {
  method : jsstring;
  responseType : jsstring;
  params : loc;
  test : bool;
  documentType : option jsstring
}.
End Settings.

Module Gateway.

(** The own properties of a gateway object that the methods read or
    write. [Object.create(Gateway)] gives none of them; the constructor
    assigns [settings], [getBase] assigns [base]; [test] and [method] are
    read by [send] and [get] and are [undefined] ([None]) unless a caller
    assigns them. *)
Record t := Make {
  settings : Settings.t;
  base : option jsstring;
  test : option bool;
  method : option jsstring
}.

Definition this_state : Type := t * world.

Definition Meth (A : Type) : Type := M this_state A.

Definition this : Meth t := λ s, (Normal s.1, s).

Definition the_world : Meth world := λ s, (Normal s.2, s).

Definition set_base (b : jsstring) : Meth unit := λ s,
  (Normal tt, (Make (settings s.1) (Some b) (test s.1) (method s.1), s.2)).

Definition update_world (f : world → world) : Meth unit := λ s,
  (Normal tt, (s.1, f s.2)).

(** ToBoolean of [this.test]. *)
Definition truthy (b : option bool) : bool := default false b.

Definition getBase : Meth jsstring :=
  g ← this;
  let b := u "http://eutils.ncbi.nlm.nih.gov/entrez/eutils/"
             ++ Settings.method (settings g) ++ u ".fcgi?" in
  set_base b ;; mret b.

Definition addParams (params : object) : Meth loc :=
  g ← this;
  let l := Settings.params (settings g) in
  update_world (λ w, store l (Obj.extend (deref w l) params) w) ;;
  mret l.

(** The argument of [addIds]: an array or anything else. *)
Inductive ids : Type :=
  | Scalar (v : value)
  | Sequence (elements : list value).

Definition idString (i : ids) : value :=
  match i with
  | Sequence elements => VStr (join (u ",") (map ToString elements))
  | Scalar v => v
  end.

Definition addIds (i : ids) : Meth loc :=
  addParams (Obj.literal [(u "id", idString i)]).

(** The body of the [for ... in] loop of [generateUrl]. *)
Definition append_param (url : jsstring) (kv : jsstring * value) : jsstring :=
  (url ++ kv.1 ++ u "=" ++ ToString kv.2) ++ u "&".

Definition generateUrl : Meth jsstring :=
  url ← getBase;
  g ← this;
  w ← the_world;
  let url := fold_left append_param (deref w (Settings.params (settings g))) url in
  let url := drop_last_unit url in
  lift (encodeURI url).

(** The promise popsicle returns is returned as it is; its value is the
    response. *)
Definition of_response (p : promise response) : promise document :=
  match p with
  | Fulfilled resp => Fulfilled (DocResponse resp)
  | Rejected e => Rejected e
  | Pending => Pending
  end.

Section Collaborators.

(** popsicle: the outcome of the HTTP exchange for a request. *)
Variable popsicle : request → promise response.

Definition send : Meth (promise document) :=
  url ← generateUrl;
  g ← this;
  if truthy (test g)
  then mret (Fulfilled (DocText (u "Test call to NCBI eUtils: " ++ url)))
  else
    let r := Request (u "GET") url in
    update_world (emit (Http r)) ;;
    mret (of_response (popsicle r)).

(** ../documents and the handler: the parser factory may throw; the
    handler's return value or exception settles the promise of [get]. *)
Variable parser : Type.
Variable createParser : option jsstring → option jsstring → completion parser.
Variable result : Type.

Definition get (callback : parser → promise result) : Meth (promise result) :=
  p ← send;
  match p with
  | Fulfilled doc =>
    g ← this;
    update_world (emit (ParserCreated (document_body doc) (method g))) ;;
    match createParser (document_body doc) (method g) with
    | Normal pa => update_world (emit HandlerCalled) ;; mret (callback pa)
    | Throw e => mret (Rejected e)
    end
  | Rejected e => mret (Rejected e)
  | Pending => mret Pending
  end.

End Collaborators.

End Gateway.

(** The argument object of the constructor; an absent property is [None]. *)
Module Args.
Record t := Make {
  method : option jsstring;
  responseType : option jsstring;
  params : option loc;
  test : option bool;
  documentType : option jsstring
}.
Definition empty : t := Make None None None None None.
End Args.

(** Calling a method on a gateway from outside: the result and the
    gateway as the call leaves it. *)
Definition invoke {A} (m : Gateway.Meth A) (g : Gateway.t) : M world (A * Gateway.t) :=
  λ w, match m (g, w) with
       | (Normal a, (g', w')) => (Normal (a, g'), w')
       | (Throw e, (_, w')) => (Throw e, w')
       end.

(** [_.extend({method: 'esearch', responseType: 'json', params: {},
    test: false}, args)]: a property of [args] replaces the default, and
    [params] is then the very object [args.params] refers to. *)
Definition extend_defaults (fresh_params : loc) (args : Args.t) : Settings.t :=
  Settings.Make
    (default (u "esearch") (Args.method args))
    (default (u "json") (Args.responseType args))
    (default fresh_params (Args.params args))
    (default false (Args.test args))
    (Args.documentType args).

(** [module.exports] of createGateway.js. *)
Definition createGateway (args : Args.t) : M world Gateway.t :=
  λ w,
  (* the defaults literal, whose [params: {}] is a new object *)
  let '(fresh_params, w) := alloc [] w in
  let gateway := Gateway.Make (extend_defaults fresh_params args) None None None in
  (r ← invoke
         (Gateway.addParams
            (Obj.literal
               [(u "retmode",
                 VStr (Settings.responseType (Gateway.settings gateway)))]))
         gateway;
   mret r.2) w.

(** ** index.js *)

Definition new_object (props : list (jsstring * value)) : M world loc :=
  λ w, let '(l, w) := alloc (Obj.literal props) w in (Normal l, w).

Definition pubmedSearch (query : value) (start end_ : Z) : M world Gateway.t :=
  p ← new_object [(u "db", VStr (u "pubmed"));
                  (u "term", query);
                  (u "retstart", VNum start);
                  (u "retmax", number_value (Double.sub end_ start))];
  createGateway
    (Args.Make None None (Some p) None (Some (u "esearch"))).

Definition pubmedSummary (ids : Gateway.ids) : M world Gateway.t :=
  p ← new_object [(u "db", VStr (u "pubmed"))];
  gateway ← createGateway
    (Args.Make None None (Some p) None (Some (u "esummary")));
  r ← invoke (Gateway.addIds ids) gateway;
  mret r.2.

Definition pubmedRecord (ids : Gateway.ids) : M world Gateway.t :=
  p ← new_object [(u "db", VStr (u "pubmed"))];
  gateway ← createGateway
    (Args.Make None (Some (u "xml")) (Some p) None (Some (u "efetch")));
  r ← invoke (Gateway.addIds ids) gateway;
  mret r.2.

Definition pubmedLinks (id : Gateway.ids) : M world Gateway.t :=
  p ← new_object [(u "db", VStr (u "pubmed"));
                  (u "dbfrom", VStr (u "pubmed"));
                  (u "cmd", VStr (u "neighbor"))];
  gateway ← createGateway
    (Args.Make None None (Some p) None (Some (u "elink")));
  r ← invoke (Gateway.addIds id) gateway;
  mret r.2.

(** ** Notions the statements use *)

(** [String.prototype.isWellFormed]: no lone surrogate. *)
Fixpoint well_formed (s : jsstring) : bool :=
  match s with
  | [] => true
  | c :: rest =>
    if is_high c then
      match rest with
      | l :: rest' => is_low l && well_formed rest'
      | [] => false
      end
    else negb (is_low c) && well_formed rest
  end.

(** One parameter as it reads in the query string, and the query string. *)
Definition pair_text (kv : jsstring * value) : jsstring :=
  kv.1 ++ u "=" ++ ToString kv.2.

Definition query (o : object) : jsstring := join (u "&") (map pair_text o).

Definition base_path (method : jsstring) : jsstring :=
  u "http://eutils.ncbi.nlm.nih.gov/entrez/eutils/" ++ method ++ u ".fcgi?".

Definition amp : N := 38.

(** The parameter bag of a gateway in a world. *)
Definition params_of (g : Gateway.t) (w : world) : object :=
  deref w (Settings.params (Gateway.settings g)).

(** The mutators of a gateway, and a sequence of calls of them. *)
Inductive op : Type :=
  | AddParams (extra : object)
  | AddIds (i : Gateway.ids).

(** The mapping a call merges into the parameter bag. *)
Definition mapping_of (o : op) : object :=
  match o with
  | AddParams extra => extra
  | AddIds i => Obj.literal [(u "id", Gateway.idString i)]
  end.

Definition run_op (o : op) : Gateway.Meth loc :=
  match o with
  | AddParams extra => Gateway.addParams extra
  | AddIds i => Gateway.addIds i
  end.

Fixpoint run_ops (os : list op) : Gateway.Meth unit :=
  match os with
  | [] => mret tt
  | o :: rest => run_op o ;; run_ops rest
  end.

Definition sets_retmode (o : op) : bool :=
  match o with
  | AddParams extra => Obj.has (u "retmode") extra
  | AddIds _ => false
  end.

Definition with_base (g : Gateway.t) : Gateway.t :=
  Gateway.Make (Gateway.settings g)
    (Some (base_path (Settings.method (Gateway.settings g))))
    (Gateway.test g) (Gateway.method g).

(** A parameter bag whose one value holds a space and the reserved
    characters [&] and [=], and a bag that spells the same text out as
    two parameters. *)
Definition reserved_world : world :=
  World {[ 1%positive := [(u "term", VStr (u "breast cancer&db=protein"));
                          (u "retmode", VStr (u "json"))] ]} [].

Definition split_world : world :=
  World {[ 1%positive := [(u "term", VStr (u "breast cancer"));
                          (u "db", VStr (u "protein"));
                          (u "retmode", VStr (u "json"))] ]} [].

(** Reading the world from a script. *)
Definition current_world : M world world := λ w, (Normal w, w).

(** The invariant of the data model: the [retmode] entry mirrors
    [settings.responseType]. *)
Definition retmode_mirrors (g : Gateway.t) (w : world) : Prop :=
  Obj.get (u "retmode") (params_of g w)
  = Some (VStr (Settings.responseType (Gateway.settings g))).

(** The identifiers an argument of [addIds] stands for. *)
Definition elements_of (i : Gateway.ids) : list value :=
  match i with
  | Gateway.Scalar v => [v]
  | Gateway.Sequence elements => elements
  end.

(** The [id] parameter of a gateway after [addIds(i)]. *)
Definition id_after (i : Gateway.ids) (g : Gateway.t) (w : world) : option value :=
  Obj.get (u "id") (params_of g (Gateway.addIds i (g, w)).2.2).

(** The request of a gateway built with no method and no parameters. *)
Definition default_request : request :=
  Request (u "GET")
    (u "http://eutils.ncbi.nlm.nih.gov/entrez/eutils/esearch.fcgi?retmode=json").

(** A popsicle whose every exchange succeeds with the same response. *)
Definition ok_response : response := Response 200 (u "{}").

Definition popsicle_ok (r : request) : promise response := Fulfilled ok_response.

(** A gateway as the constructor leaves it for [args = {}], with one
    parameter added whose value ends in [&], and the heap that holds its
    parameter bag. *)
Definition sample_gateway : Gateway.t :=
  Gateway.Make (Settings.Make (u "esearch") (u "json") 1%positive false None)
    None None None.

Definition sample_world : world :=
  World {[ 1%positive := [(u "retmode", VStr (u "json"));
                          (u "term", VStr (u "a&"))] ]} [].

(** No method, key or value of the gateway holds a lone surrogate. *)
Definition strings_well_formed (g : Gateway.t) (w : world) : bool :=
  well_formed (Settings.method (Gateway.settings g))
  && forallb (λ kv, well_formed kv.1 && well_formed (ToString kv.2))
       (params_of g w).

(** A string that cannot start the second half of a surrogate pair. *)
Definition head_not_low (s : jsstring) : bool :=
  match s with
  | [] => true
  | c :: _ => negb (is_low c)
  end.

(** A character encodeURI may put out: one of its unescaped set or [%]. *)
Definition url_unit (c : N) : bool := unescaped c || (c =? 37).

(** A code unit is a 16-bit number. *)
Definition code_unit (c : N) : bool := c <? 65536.

(** The method, the keys and the texts of the values are made of code
    units. *)
Definition strings_are_units (g : Gateway.t) (w : world) : bool :=
  forallb code_unit (Settings.method (Gateway.settings g))
  && forallb (λ kv, forallb code_unit kv.1 && forallb code_unit (ToString kv.2))
       (params_of g w).

(** A bag whose value holds a Latin-1 letter, a space, the euro sign and
    a surrogate pair. *)
Definition unicode_world : world :=
  World {[ 1%positive := [(u "term", VStr [233; 32; 8364; 55357; 56832])] ]} [].

(** No key of the object is an array index. *)
Definition no_index_keys (o : object) : bool :=
  forallb (λ kv, match Obj.array_index kv.1 with Some _ => false | None => true end) o.

(** A parameter bag as it prints: each value by its text. *)
Definition printed (o : object) : list (jsstring * jsstring) :=
  map (λ kv, (kv.1, ToString kv.2)) o.

(** A heap object a caller made and a request to parse its content as
    xml. *)
Definition callers_args : Args.t :=
  Args.Make None (Some (u "xml")) (Some 1%positive) None None.

(** The four constructors of index.js and their arguments. *)
Inductive named : Type :=
  | Search (query : value) (start end_ : Z)
  | Summary (ids : Gateway.ids)
  | Record_ (ids : Gateway.ids)
  | Links (id : Gateway.ids).

Definition construct (c : named) : M world Gateway.t :=
  match c with
  | Search query start end_ => pubmedSearch query start end_
  | Summary ids => pubmedSummary ids
  | Record_ ids => pubmedRecord ids
  | Links id => pubmedLinks id
  end.

Definition documentType_of (c : named) : jsstring :=
  match c with
  | Search _ _ _ => u "esearch"
  | Summary _ => u "esummary"
  | Record_ _ => u "efetch"
  | Links _ => u "elink"
  end.

(** A popsicle whose every exchange fails, and one that never settles. *)
Definition popsicle_down (r : request) : promise response :=
  Rejected (Raised (u "ECONNREFUSED")).

Definition popsicle_hung (r : request) : promise response := Pending.

(** A parser factory that rejects every document, and one that accepts
    every document and keeps its two arguments. *)
Definition parser_refuses (body method : option jsstring) : completion unit :=
  Throw (Raised (u "unparsable")).

Definition parser_keeps (body method : option jsstring)
  : completion (option jsstring * option jsstring) :=
  Normal (body, method).

(** A gateway on which a caller has assigned [test = true]. *)
Definition test_gateway : Gateway.t :=
  Gateway.Make (Settings.Make (u "esearch") (u "json") 1%positive false None)
    None (Some true) None.

(** A heap whose parameter bag is empty, and one whose bag holds a lone
    high surrogate. *)
Definition bare_world : world := World {[ 1%positive := [] ]} [].

Definition broken_world : world :=
  World {[ 1%positive := [(u "term", VStr [55357])] ]} [].

(** The URL of [sample_gateway] in [sample_world]. *)
Definition sample_url : jsstring :=
  u "http://eutils.ncbi.nlm.nih.gov/entrez/eutils/esearch.fcgi?retmode=json&term=a&".

(** A call that takes [w] to [w'] builds the object [l] beside what is
    there: [l] is new, every object of [w] is still there with its
    properties, nothing is logged. *)
Definition built_beside (l : loc) (w w' : world) : Prop :=
  (l ∉ dom (heap w))
  ∧ (l ∈ dom (heap w'))
  ∧ (dom (heap w) ⊆ dom (heap w'))
  ∧ (∀ l', l' ∈ dom (heap w) → deref w' l' = deref w l')
  ∧ log w' = log w.

Definition empty_world : world := World ∅ [].

(** Running a script from the empty world and keeping its result. *)
Definition result_of {A} (m : M world A) : completion A := (m empty_world).1.

(** * Properties *)

(** ** Lists of code units *)

Lemma list_pair_ind {A} (P : list A → Prop) :
  P [] → (∀ x, P [x]) →
  (∀ x y l, P l → P (y :: l) → P (x :: y :: l)) →
  ∀ l, P l.
Proof.
  intros H0 H1 H2 l.
  enough (P l ∧ ∀ x, P (x :: l)) by tauto.
  induction l as [|y l [IH1 IH2]]; split; auto.
Qed.

Lemma unescaped_not_surrogate c :
  unescaped c = true → is_high c = false ∧ is_low c = false.
Proof.
  unfold unescaped, is_alpha, is_digit, mem, uri_mark, uri_reserved, is_high, is_low.
  cbn [existsb]. intros H. split; apply andb_false_iff;
  destruct (N.leb_spec 55296 c), (N.leb_spec 56320 c); auto; exfalso.
  all: repeat match goal with
       | H : _ || _ = true |- _ => apply orb_true_iff in H; destruct H
       | H : _ && _ = true |- _ => apply andb_true_iff in H; destruct H
       | H : (_ <=? _) = true |- _ => apply N.leb_le in H
       | H : (_ =? _) = true |- _ => apply N.eqb_eq in H
       | H : false = true |- _ => discriminate H
       end; lia.
Qed.

Lemma Encode_cons c rest :
  Encode (c :: rest)
  = if unescaped c then cbind (Encode rest) (λ r, Normal (c :: r))
    else if is_high c then
      match rest with
      | l :: rest' =>
        if is_low l
        then cbind (Encode rest') (λ r, Normal (escape (pair_code_point c l) ++ r))
        else Throw URIError
      | [] => Throw URIError
      end
    else if is_low c then Throw URIError
    else cbind (Encode rest) (λ r, Normal (escape c ++ r)).
Proof. reflexivity. Qed.

Lemma well_formed_cons c rest :
  well_formed (c :: rest)
  = if is_high c then
      match rest with
      | l :: rest' => is_low l && well_formed rest'
      | [] => false
      end
    else negb (is_low c) && well_formed rest.
Proof. reflexivity. Qed.

Lemma Encode_unescaped_app a b :
  forallb unescaped a = true →
  Encode (a ++ b) = cbind (Encode b) (λ r, Normal (a ++ r)).
Proof.
  induction a as [|c a IH]; cbn [forallb app Encode]; intros H.
  - by destruct (Encode b).
  - apply andb_true_iff in H as [Hc Ha]. rewrite Hc, (IH Ha).
    by destruct (Encode b).
Qed.

Lemma Encode_unescaped s :
  forallb unescaped s = true → Encode s = Normal s.
Proof.
  intros H. rewrite <- (app_nil_r s) at 1.
  rewrite Encode_unescaped_app by done. cbn. by rewrite app_nil_r.
Qed.

Lemma hex_digit_not_amp d : hex_digit d ≠ amp.
Proof. unfold hex_digit, amp. destruct (d <? 10); lia. Qed.

Lemma escape_last cp : ∃ h, last (escape cp) = Some h ∧ h ≠ amp.
Proof.
  unfold escape, utf8.
  repeat match goal with |- context [if ?b then _ else _] => destruct b end;
    cbn; eexists; (split; [reflexivity | apply hex_digit_not_amp]).
Qed.

Lemma last_escape_app cp r :
  last (escape cp ++ r) = Some amp ↔ last r = Some amp.
Proof.
  rewrite last_app. destruct (escape_last cp) as (h & Hh & Hne).
  destruct (last r); [done|]. rewrite Hh. split; [congruence | done].
Qed.

Lemma amp_unescaped : unescaped amp = true.
Proof. reflexivity. Qed.

Lemma last_cons_cons {A} (x y : A) l : last (x :: y :: l) = last (y :: l).
Proof. reflexivity. Qed.

Lemma escape_nonempty cp r : escape cp ++ r ≠ [].
Proof.
  intros H. apply app_eq_nil in H as [H _].
  destruct (escape_last cp) as (h & Hh & _). by rewrite H in Hh.
Qed.

Lemma Encode_cons_nonempty c s r : Encode (c :: s) = Normal r → r ≠ [].
Proof.
  cbn [Encode]. destruct (unescaped c).
  - destruct (Encode s); cbn [cbind]; [|discriminate]. by intros [= <-].
  - destruct (is_high c).
    + destruct s as [|l s']; [discriminate|].
      destruct (is_low l); [|discriminate].
      destruct (Encode s'); cbn [cbind]; [|discriminate].
      intros [= <-]. apply escape_nonempty.
    + destruct (is_low c); [discriminate|].
      destruct (Encode s); cbn [cbind]; [|discriminate].
      intros [= <-]. apply escape_nonempty.
Qed.

Lemma Encode_last_amp s r :
  Encode s = Normal r → last r = Some amp ↔ last s = Some amp.
Proof.
  revert r. induction s as [| x | x y l IHl IHyl] using list_pair_ind; intros r.
  - cbn. by intros [= <-].
  - cbn [Encode cbind]. destruct (unescaped x) eqn:Hx.
    + by intros [= <-].
    + destruct (is_high x); [done|]. destruct (is_low x); [done|].
      intros [= <-]. rewrite last_escape_app. cbn. split; [done|].
      intros [= ->]. by rewrite amp_unescaped in Hx.
  - rewrite last_cons_cons.
    rewrite (Encode_cons x (y :: l)).
    destruct (unescaped x) eqn:Hx.
    + destruct (Encode (y :: l)) as [r'|] eqn:Hr'; [|done]. cbn.
      intros [= <-]. rewrite <- (IHyl r' eq_refl).
      destruct r' as [|z r']; [|done].
      by apply Encode_cons_nonempty in Hr'.
    + destruct (is_high x).
      * destruct (is_low y) eqn:Hy; [|done].
        destruct (Encode l) as [r'|] eqn:Hr'; [|done]. cbn.
        intros [= <-]. rewrite last_escape_app, (IHl r' eq_refl).
        destruct l as [|z l]; [|done]. cbn. split; [done|].
        intros [= ->]. done.
      * destruct (is_low x); [done|].
        destruct (Encode (y :: l)) as [r'|] eqn:Hr'; [|done]. cbn.
        intros [= <-]. by rewrite last_escape_app, (IHyl r' eq_refl).
Qed.

Lemma Encode_well_formed s :
  well_formed s = true → ∃ r, Encode s = Normal r.
Proof.
  induction s as [| x | x y l IHl IHyl] using list_pair_ind.
  - by eexists.
  - rewrite well_formed_cons, Encode_cons. destruct (unescaped x); [by eexists|].
    destruct (is_high x); [done|]. destruct (is_low x); [done|]. by eexists.
  - rewrite well_formed_cons, Encode_cons.
    destruct (unescaped x) eqn:Hx.
    + destruct (unescaped_not_surrogate x Hx) as [-> ->]. cbn [negb andb].
      intros [r' ->]%IHyl. by eexists.
    + destruct (is_high x).
      * intros [-> [r' ->]%IHl]%andb_true_iff. by eexists.
      * destruct (is_low x); [done|]. cbn [negb andb].
        intros [r' ->]%IHyl. by eexists.
Qed.

Lemma well_formed_app a b :
  well_formed a = true → well_formed b = true → well_formed (a ++ b) = true.
Proof.
  intros Ha Hb. induction a as [| x | x y l IHl IHyl] using list_pair_ind.
  - done.
  - revert Ha. cbn [app]. rewrite !well_formed_cons. destruct (is_high x); [done|].
    destruct (is_low x); [done|]. by rewrite Hb.
  - revert Ha. cbn [app]. rewrite (well_formed_cons x (y :: l)).
    rewrite (well_formed_cons x (y :: l ++ b)). destruct (is_high x).
    + intros [-> ?]%andb_true_iff. cbn [andb]. auto.
    + intros [-> ?]%andb_true_iff. cbn [andb]. by apply IHyl.
Qed.

Lemma well_formed_unescaped s :
  forallb unescaped s = true → well_formed s = true.
Proof.
  induction s as [|c s IH]; [done|]. cbn [forallb well_formed].
  intros [Hc Hs]%andb_true_iff.
  destruct (unescaped_not_surrogate c Hc) as [-> ->]. cbn. auto.
Qed.

Lemma uint_units_unescaped d : forallb unescaped (uint_units d) = true.
Proof. induction d; cbn [uint_units forallb]; try done; by rewrite IHd. Qed.

Lemma decimal_unescaped x : forallb unescaped (decimal x) = true.
Proof. apply uint_units_unescaped. Qed.

Lemma drop_zeros_In c s : In c (drop_zeros s) → In c s.
Proof.
  induction s as [|d s IH]; [done|]. cbn [drop_zeros].
  destruct (d =? 48); [|done]. intros H. right. by apply IH.
Qed.

Lemma strip_trailing_zeros_unescaped s :
  forallb unescaped s = true →
  forallb unescaped (strip_trailing_zeros s) = true.
Proof.
  rewrite !forallb_forall. intros H c Hc. apply H.
  unfold strip_trailing_zeros in Hc.
  apply in_rev, drop_zeros_In in Hc. by apply in_rev.
Qed.

Lemma positive_to_string_unescaped x :
  forallb unescaped (positive_to_string x) = true.
Proof.
  unfold positive_to_string.
  destruct (_ <=? 21)%nat; [apply decimal_unescaped|].
  pose proof (strip_trailing_zeros_unescaped _
                (decimal_unescaped (Double.shortest x))) as H.
  destruct (strip_trailing_zeros _) as [|c [|d rest]]; [done| |];
    cbn [forallb] in H |- *;
    apply andb_true_iff in H as [-> H]; cbn [andb];
    rewrite ?forallb_app, ?decimal_unescaped; cbn [forallb] in *.
  - reflexivity.
  - rewrite H. reflexivity.
Qed.

Lemma number_to_string_unescaped z :
  forallb unescaped (number_to_string z) = true.
Proof.
  unfold number_to_string. destruct (z =? 0)%Z; [reflexivity|].
  destruct (z <? 0)%Z; [|apply positive_to_string_unescaped].
  rewrite forallb_app, positive_to_string_unescaped. reflexivity.
Qed.

(** ** The query string *)

Lemma fold_append_param entries b :
  fold_left Gateway.append_param entries b
  = b ++ concat (map (λ kv, pair_text kv ++ u "&") entries).
Proof.
  revert b. induction entries as [|kv entries IH]; intros b; cbn [fold_left map concat].
  - by rewrite app_nil_r.
  - rewrite IH. unfold Gateway.append_param, pair_text. by rewrite <- !app_assoc.
Qed.

Lemma removelast_separators entries :
  entries ≠ [] →
  removelast (concat (map (λ kv, pair_text kv ++ u "&") entries)) = query entries.
Proof.
  unfold query. induction entries as [|kv [|kv' entries] IH]; [done| |]; intros _.
  - cbn [map concat join]. rewrite app_nil_r. apply removelast_last.
  - change (removelast ((pair_text kv ++ u "&")
              ++ concat (map (λ kv, pair_text kv ++ u "&") (kv' :: entries)))
            = pair_text kv ++ u "&" ++ join (u "&") (map pair_text (kv' :: entries))).
    rewrite removelast_app.
    + rewrite IH by done. by rewrite <- app_assoc.
    + cbn [map concat]. intros H. apply app_eq_nil in H as [H _].
      by apply app_eq_nil in H as [_ H].
Qed.

Lemma raw_url_query entries b :
  entries ≠ [] →
  drop_last_unit (fold_left Gateway.append_param entries b) = b ++ query entries.
Proof.
  intros H. unfold drop_last_unit. rewrite fold_append_param, removelast_app.
  - by rewrite removelast_separators.
  - destruct entries as [|kv entries]; [done|]. cbn [map concat].
    intros E. apply app_eq_nil in E as [E _].
    by apply app_eq_nil in E as [_ E].
Qed.

Lemma last_pair_text k v :
  last (pair_text (k, v)) = Some amp ↔ last (ToString v) = Some amp.
Proof.
  unfold pair_text. cbn [fst snd]. rewrite !last_app.
  destruct (last (ToString v)); [done|]. cbn. split; [|done]. by intros [=].
Qed.

Lemma pair_text_nonempty kv : last (pair_text kv) ≠ None.
Proof.
  unfold pair_text. rewrite !last_app. by destruct (last (ToString kv.2)).
Qed.

Lemma last_query entries kv :
  last entries = Some kv → last (query entries) = last (pair_text kv).
Proof.
  unfold query. induction entries as [|kv1 [|kv2 entries] IH]; [done| |].
  - by intros [= ->].
  - rewrite last_cons_cons. intros H%IH.
    change (last (pair_text kv1 ++ u "&" ++ join (u "&") (map pair_text (kv2 :: entries)))
            = last (pair_text kv)).
    rewrite !last_app, H. destruct (last (pair_text kv)) eqn:E; [done|].
    by apply pair_text_nonempty in E.
Qed.

Lemma well_formed_query entries :
  Forall (λ kv, well_formed kv.1 = true ∧ well_formed (ToString kv.2) = true) entries →
  well_formed (query entries) = true.
Proof.
  unfold query. induction entries as [|kv1 [|kv2 entries] IH]; [done| |].
  - intros [[H1 H2] _]%Forall_cons. cbn [map join]. unfold pair_text.
    by repeat apply well_formed_app.
  - intros [[H1 H2] H]%Forall_cons.
    change (well_formed (pair_text kv1 ++ u "&" ++ join (u "&") (map pair_text (kv2 :: entries))) = true).
    unfold pair_text at 1. repeat apply well_formed_app; auto.
Qed.

Lemma unescaped_query entries :
  Forall (λ kv, forallb unescaped kv.1 = true
                ∧ forallb unescaped (ToString kv.2) = true) entries →
  forallb unescaped (query entries) = true.
Proof.
  unfold query. induction entries as [|kv1 [|kv2 entries] IH]; [done| |].
  - intros [[H1 H2] _]%Forall_cons. cbn [map join]. unfold pair_text.
    rewrite !forallb_app. apply andb_true_iff. split; [done|].
    apply andb_true_iff. by split.
  - intros [[H1 H2] H]%Forall_cons.
    change (forallb unescaped (pair_text kv1 ++ u "&" ++ join (u "&") (map pair_text (kv2 :: entries))) = true).
    unfold pair_text at 1. rewrite !forallb_app.
    repeat (apply andb_true_iff; split); auto.
Qed.

(** ** Objects *)

Lemma get_replace_eq k v o : Obj.has k o = true → Obj.get k (Obj.replace k v o) = Some v.
Proof.
  unfold Obj.has. induction o as [|[k' v'] o IH]; cbn; [done|].
  destruct (decide (k' = k)) as [->|Hne]; cbn.
  - by rewrite decide_True.
  - by rewrite decide_False.
Qed.

Lemma get_replace_ne k k' v o : k ≠ k' → Obj.get k' (Obj.replace k v o) = Obj.get k' o.
Proof.
  intros Hne. induction o as [|[k1 v1] o IH]; cbn; [done|].
  destruct (decide (k1 = k)) as [->|Hk]; cbn.
  - by rewrite !decide_False.
  - by rewrite IH.
Qed.

Lemma get_insert_index_eq i k v o :
  Obj.get k o = None → Obj.get k (Obj.insert_index i k v o) = Some v.
Proof.
  induction o as [|[k1 v1] o IH]; cbn.
  - by rewrite decide_True.
  - destruct (decide (k1 = k)) as [->|Hk]; [done|]. intros H.
    destruct (Obj.array_index k1) as [j|]; [destruct (j <? i)|]; cbn.
    + rewrite decide_False by done. auto.
    + by rewrite decide_True.
    + by rewrite decide_True.
Qed.

Lemma get_insert_index_ne i k k' v o :
  k ≠ k' → Obj.get k' (Obj.insert_index i k v o) = Obj.get k' o.
Proof.
  intros Hne. induction o as [|[k1 v1] o IH]; cbn.
  - by rewrite decide_False.
  - destruct (Obj.array_index k1) as [j|]; [destruct (j <? i)|]; cbn.
    + by rewrite IH.
    + by rewrite (decide_False (P := k = k')).
    + by rewrite (decide_False (P := k = k')).
Qed.

Lemma get_app k o o' :
  Obj.get k (o ++ o') = match Obj.get k o with Some v => Some v | None => Obj.get k o' end.
Proof.
  induction o as [|[k1 v1] o IH]; cbn; [done|]. by destruct (decide (k1 = k)).
Qed.

Lemma get_set_own k v o :
  Obj.has k o = true → Obj.get k (Obj.set k v o) = Some v.
Proof. intros H. unfold Obj.set. rewrite H. by apply get_replace_eq. Qed.

Lemma get_set_eq k v o :
  k ≠ Obj.proto → Obj.get k (Obj.set k v o) = Some v.
Proof.
  intros Hk. unfold Obj.set. destruct (Obj.has k o) eqn:H.
  - by apply get_replace_eq.
  - rewrite bool_decide_false by done.
    unfold Obj.has in H. destruct (Obj.get k o) eqn:G; [done|].
    destruct (Obj.array_index k).
    + by apply get_insert_index_eq.
    + rewrite get_app, G. cbn. by rewrite decide_True.
Qed.

(** A [__proto__] the object does not own is not created. *)
Lemma set_new_proto v o :
  Obj.has Obj.proto o = false → Obj.set Obj.proto v o = o.
Proof. intros H. unfold Obj.set. by rewrite H, bool_decide_true. Qed.

Lemma retmode_not_proto : u "retmode" ≠ Obj.proto.
Proof. by vm_compute. Qed.

Lemma id_not_proto : u "id" ≠ Obj.proto.
Proof. by vm_compute. Qed.

Lemma get_set_ne k k' v o : k ≠ k' → Obj.get k' (Obj.set k v o) = Obj.get k' o.
Proof.
  intros Hne. unfold Obj.set. destruct (Obj.has k o).
  - by apply get_replace_ne.
  - destruct (bool_decide (k = Obj.proto)); [done|].
    destruct (Obj.array_index k).
    + by apply get_insert_index_ne.
    + rewrite get_app. cbn. rewrite decide_False by done. by destruct (Obj.get k' o).
Qed.

Lemma get_None_not_key k o : Obj.get k o = None → k ∉ Obj.keys o.
Proof.
  induction o as [|[k1 v1] o IH]; cbn; [by intros _ ?%elem_of_nil|].
  destruct (decide (k1 = k)); [done|]. intros H [->|?]%elem_of_cons; [done|].
  by apply IH.
Qed.

Lemma not_key_get_None k o : k ∉ Obj.keys o → Obj.get k o = None.
Proof.
  induction o as [|[k1 v1] o IH]; cbn; [done|].
  intros H. apply not_elem_of_cons in H as [H1 H2].
  rewrite decide_False by done. auto.
Qed.

Lemma get_set_same k v o :
  Obj.get k (Obj.set k v o) = if Obj.assignable k o then Some v else None.
Proof.
  unfold Obj.assignable. destruct (Obj.has k o) eqn:H; cbn [orb].
  - by apply get_set_own.
  - destruct (decide (k = Obj.proto)) as [->|Hk].
    + rewrite set_new_proto, bool_decide_true by done. cbn [negb].
      unfold Obj.has in H. by destruct (Obj.get Obj.proto o).
    + rewrite bool_decide_false by done. by apply get_set_eq.
Qed.

Lemma assignable_set k k' v o :
  Obj.assignable k (Obj.set k' v o) = Obj.assignable k o.
Proof.
  unfold Obj.assignable, Obj.has. destruct (decide (k' = k)) as [->|Hne].
  - rewrite get_set_same. unfold Obj.assignable, Obj.has.
    destruct (Obj.get k o); [done|]. cbn [orb]. by destruct (negb _).
  - by rewrite get_set_ne.
Qed.

(** Last write wins: the value of a key after [_.extend]. *)
Lemma get_extend k obj source :
  NoDup (Obj.keys source) →
  Obj.get k (Obj.extend obj source)
  = match Obj.get k source with
    | Some v => if Obj.assignable k obj then Some v else None
    | None => Obj.get k obj
    end.
Proof.
  unfold Obj.extend. revert obj.
  induction source as [|[k1 v1] source IH]; intros obj; cbn [fold_left]; [done|].
  intros [Hk1 Hnd]%NoDup_cons. rewrite IH by done. cbn [Obj.get fst snd].
  rewrite assignable_set.
  destruct (decide (k1 = k)) as [->|Hne].
  - apply not_key_get_None in Hk1. cbn [fst] in Hk1.
    by rewrite Hk1, get_set_same.
  - by rewrite get_set_ne.
Qed.

Lemma assignable_extend k obj source :
  Obj.assignable k (Obj.extend obj source) = Obj.assignable k obj.
Proof.
  unfold Obj.extend. revert obj.
  induction source as [|[k1 v1] source IH]; intros obj; cbn [fold_left]; [done|].
  by rewrite IH, assignable_set.
Qed.

Lemma get_extend_untouched k obj source :
  Obj.get k source = None → Obj.get k (Obj.extend obj source) = Obj.get k obj.
Proof.
  unfold Obj.extend. revert obj.
  induction source as [|[k1 v1] source IH]; intros obj; cbn [fold_left Obj.get]; [done|].
  destruct (decide (k1 = k)) as [->|Hne]; [done|].
  intros H. rewrite IH by done. by apply get_set_ne.
Qed.

Lemma extend_nonempty obj source : obj ≠ [] → Obj.extend obj source ≠ [].
Proof.
  unfold Obj.extend. revert obj.
  induction source as [|[k1 v1] source IH]; intros obj Hobj; cbn [fold_left]; [done|].
  apply IH. cbn [fst snd]. destruct obj as [|[k0 v0] obj]; [done|].
  unfold Obj.set. destruct (Obj.has k1 _).
  - cbn [Obj.replace]. by destruct (decide (k0 = k1)).
  - destruct (bool_decide (k1 = Obj.proto)); [done|].
    destruct (Obj.array_index k1); [|done].
    cbn [Obj.insert_index]. destruct (Obj.array_index k0) as [j|]; [|done].
    by destruct (j <? n).
Qed.

(** ** The heap *)

Lemma deref_store_eq l o w : deref (store l o w) l = o.
Proof. unfold deref, store. cbn. by rewrite lookup_insert_eq. Qed.

Lemma deref_store_ne l l' o w : l ≠ l' → deref (store l o w) l' = deref w l'.
Proof. intros H. unfold deref, store. cbn. by rewrite lookup_insert_ne. Qed.

Lemma log_store l o w : log (store l o w) = log w.
Proof. reflexivity. Qed.

Lemma alloc_fresh o w : (alloc o w).1 ∉ dom (heap w).
Proof. apply is_fresh. Qed.

Lemma dom_store l o w : dom (heap (store l o w)) = {[l]} ∪ dom (heap w).
Proof. unfold store. cbn. apply dom_insert_L. Qed.

(** ** What the methods compute *)

Lemma addParams_run extra g w :
  Gateway.addParams extra (g, w)
  = (Normal (Settings.params (Gateway.settings g)),
     (g, store (Settings.params (Gateway.settings g))
           (Obj.extend (params_of g w) extra) w)).
Proof. reflexivity. Qed.

Lemma literal_singleton k v :
  k ≠ Obj.proto → Obj.literal [(k, v)] = [(k, v)].
Proof.
  intros Hk. unfold Obj.literal, Obj.set.
  cbn [fold_left fst snd Obj.has Obj.get app].
  rewrite bool_decide_false by done. by destruct (Obj.array_index k).
Qed.

Lemma addIds_run i g w :
  Gateway.addIds i (g, w)
  = (Normal (Settings.params (Gateway.settings g)),
     (g, store (Settings.params (Gateway.settings g))
           (Obj.set (u "id") (Gateway.idString i) (params_of g w)) w)).
Proof.
  unfold Gateway.addIds.
  by rewrite addParams_run, literal_singleton by apply id_not_proto.
Qed.

Lemma generateUrl_run g w :
  Gateway.generateUrl (g, w)
  = (encodeURI
       (drop_last_unit
          (fold_left Gateway.append_param (params_of g w)
             (base_path (Settings.method (Gateway.settings g))))),
     (with_base g, w)).
Proof. reflexivity. Qed.

(** ** generateUrl *)

Lemma base_path_unescaped m :
  forallb unescaped m = true → forallb unescaped (base_path m) = true.
Proof.
  intros H. unfold base_path. rewrite !forallb_app, H. reflexivity.
Qed.

(** C1, as the code has it: when the parameter bag is not empty (it never
    is after construction), the method needs no escaping (as the five
    method names) and no key or value holds a lone surrogate, generateUrl
    returns a URL that starts with the base path of [settings.method], and
    that URL ends in [&] exactly when the value of the last parameter ends
    in [&]: only the separator after the last pair is removed. *)
Theorem generateUrl_base_and_end g w :
  params_of g w ≠ [] →
  forallb unescaped (Settings.method (Gateway.settings g)) = true →
  Forall (λ kv, well_formed kv.1 = true ∧ well_formed (ToString kv.2) = true)
         (params_of g w) →
  ∃ url, (Gateway.generateUrl (g, w)).1 = Normal url
    ∧ base_path (Settings.method (Gateway.settings g)) `prefix_of` url
    ∧ (last url = Some amp
       ↔ ∃ kv, last (params_of g w) = Some kv ∧ last (ToString kv.2) = Some amp).
Proof.
  intros Hne Hm Hwf. rewrite generateUrl_run. cbn [fst].
  rewrite raw_url_query by done. unfold encodeURI.
  rewrite Encode_unescaped_app by by apply base_path_unescaped.
  destruct (Encode_well_formed _ (well_formed_query _ Hwf)) as [r Hr].
  rewrite Hr. cbn [cbind]. eexists. split; [reflexivity|]. split.
  - by apply prefix_app_r.
  - rewrite last_app.
    assert (last r = Some amp ↔ last (query (params_of g w)) = Some amp) as Hr'
      by by apply Encode_last_amp.
    destruct (last (params_of g w)) as [kv|] eqn:Hl.
    2:{ apply last_None in Hl. done. }
    rewrite (last_query _ _ Hl) in Hr'. destruct kv as [k v].
    rewrite last_pair_text in Hr'. cbn [snd] in *.
    assert ((∃ kv : jsstring * value, Some (k, v) = Some kv ∧ last (ToString kv.2) = Some amp)
            ↔ last (ToString v) = Some amp) as ->.
    { split; [by intros [[k' v'] [[= <- <-] ?]] | intros ?; by exists (k, v)]. }
    rewrite <- Hr'. destruct (last r) as [c|] eqn:E; [done|].
    split; [|done]. unfold base_path. rewrite !last_app. cbn. by intros [=].
Qed.

Lemma generateUrl_base_and_end_witness :
  params_of sample_gateway sample_world ≠ []
  ∧ ∃ url, (Gateway.generateUrl (sample_gateway, sample_world)).1 = Normal url
    ∧ base_path (u "esearch") `prefix_of` url
    ∧ (last url = Some amp
       ↔ ∃ kv, last (params_of sample_gateway sample_world) = Some kv
               ∧ last (ToString kv.2) = Some amp).
Proof.
  split; [by vm_compute|].
  apply (generateUrl_base_and_end sample_gateway sample_world).
  - by vm_compute.
  - reflexivity.
  - let bag := eval vm_compute in (params_of sample_gateway sample_world) in
    change (params_of sample_gateway sample_world) with bag.
    repeat constructor.
Defined.

(** C1, as stated, fails: a gateway built with no arguments and given
    [{term: 'a&'}] builds a URL that ends in [&]. *)
Lemma generateUrl_can_end_in_amp :
  ∃ url,
    result_of (g ← createGateway Args.empty;
               r ← invoke (Gateway.addParams (Obj.literal [(u "term", VStr (u "a&"))])) g;
               r' ← invoke Gateway.generateUrl r.2;
               mret r'.1)
    = Normal url
    ∧ url = u "http://eutils.ncbi.nlm.nih.gov/entrez/eutils/esearch.fcgi?retmode=json&term=a&"
    ∧ last url = Some amp.
Proof. eexists. split; [by vm_compute|]. split; reflexivity. Qed.

(** The four named constructors pass [documentType], which the gateway
    never reads: [settings.method] keeps its default and the summary,
    record and links gateways all address [esearch.fcgi]. *)
Lemma named_constructors_address_esearch :
  result_of (g ← pubmedSummary (Gateway.Sequence [VNum 1]);
             r ← invoke Gateway.generateUrl g; mret r.1)
  = Normal (u "http://eutils.ncbi.nlm.nih.gov/entrez/eutils/esearch.fcgi?db=pubmed&retmode=json&id=1")
  ∧ result_of (g ← pubmedRecord (Gateway.Sequence [VNum 1]);
               r ← invoke Gateway.generateUrl g; mret r.1)
    = Normal (u "http://eutils.ncbi.nlm.nih.gov/entrez/eutils/esearch.fcgi?db=pubmed&retmode=xml&id=1")
  ∧ result_of (g ← pubmedLinks (Gateway.Scalar (VNum 1));
               r ← invoke Gateway.generateUrl g; mret r.1)
    = Normal (u "http://eutils.ncbi.nlm.nih.gov/entrez/eutils/esearch.fcgi?db=pubmed&dbfrom=pubmed&cmd=neighbor&retmode=json&id=1").
Proof. repeat split; by vm_compute. Qed.

(** ** The constructor *)

Lemma createGateway_run args w :
  let fp := fresh (dom (heap w)) in
  let g := Gateway.Make (extend_defaults fp args) None None None in
  let w1 := store fp [] w in
  createGateway args w
  = (Normal g,
     store (Settings.params (Gateway.settings g))
       (Obj.set (u "retmode")
          (VStr (Settings.responseType (Gateway.settings g)))
          (params_of g w1)) w1).
Proof.
  cbv zeta. unfold createGateway, alloc. cbv zeta beta iota.
  unfold mbind, M_bind, invoke.
  by rewrite addParams_run, literal_singleton by apply retmode_not_proto.
Qed.

(** ** send and get *)

Lemma send_run popsicle g w :
  Gateway.send popsicle (g, w)
  = match encodeURI
            (drop_last_unit
               (fold_left Gateway.append_param (params_of g w)
                  (base_path (Settings.method (Gateway.settings g))))) with
    | Normal url =>
      if Gateway.truthy (Gateway.test g)
      then (Normal (Fulfilled (DocText (u "Test call to NCBI eUtils: " ++ url))),
            (with_base g, w))
      else (Normal (Gateway.of_response (popsicle (Request (u "GET") url))),
            (with_base g, emit (Http (Request (u "GET") url)) w))
    | Throw e => (Throw e, (with_base g, w))
    end.
Proof.
  unfold Gateway.send, mbind, M_bind. rewrite generateUrl_run.
  destruct (encodeURI _); [|done]. unfold Gateway.this. cbn [fst snd].
  change (Gateway.test (with_base g)) with (Gateway.test g).
  by destruct (Gateway.truthy (Gateway.test g)).
Qed.

(** When [this.test] itself is truthy, [send] logs no request and
    resolves with the announced string on the URL generateUrl builds. *)
Lemma send_with_own_test_flag popsicle g w url s :
  Gateway.truthy (Gateway.test g) = true →
  Gateway.generateUrl (g, w) = (Normal url, s) →
  Gateway.send popsicle (g, w)
  = (Normal (Fulfilled (DocText (u "Test call to NCBI eUtils: " ++ url))), s)
  ∧ log s.2 = log w.
Proof.
  intros Ht. rewrite send_run, generateUrl_run. intros [= H <-].
  by rewrite H, Ht.
Qed.

(** C2 at [createGateway({test: true}).send()]: the constructor keeps the
    flag in [settings.test], [send] reads [this.test], which is undefined;
    the request goes to popsicle and the promise is popsicle's. *)
Theorem send_ignores_test_argument popsicle :
  result_of (g ← createGateway (Args.Make None None None (Some true) None);
             p ← invoke (Gateway.send popsicle) g;
             w ← current_world;
             mret (Settings.test (Gateway.settings g), Gateway.test g, p.1, log w))
  = Normal (true, None,
            Gateway.of_response (popsicle default_request),
            [Http default_request]).
Proof.
  unfold default_request, result_of, mbind at 1, M_bind at 1.
  rewrite createGateway_run. cbv zeta. unfold mbind, M_bind, invoke.
  rewrite send_run.
  replace (encodeURI _) with
    (Normal (u "http://eutils.ncbi.nlm.nih.gov/entrez/eutils/esearch.fcgi?retmode=json"))
    by by vm_compute.
  reflexivity.
Qed.

Section Get.

Context (popsicle : request → promise response).
Context {parser result : Type}.
Context (createParser : option jsstring → option jsstring → completion parser).
Context (callback : parser → promise result).

(** A rejection of [send] is the rejection of [get]; nothing is logged
    after the request: neither the parser factory nor the handler runs. *)
Lemma get_propagates_rejection g w e s :
  Gateway.send popsicle (g, w) = (Normal (Rejected e), s) →
  Gateway.get popsicle parser createParser result callback (g, w)
  = (Normal (Rejected e), s).
Proof. intros H. unfold Gateway.get, mbind, M_bind. by rewrite H. Qed.

(** An exception of [send] (the URIError of encodeURI) leaves [get] as it
    is thrown. *)
Lemma get_propagates_throw g w e s :
  Gateway.send popsicle (g, w) = (Throw e, s) →
  Gateway.get popsicle parser createParser result callback (g, w)
  = (Throw e, s).
Proof. intros H. unfold Gateway.get, mbind, M_bind. by rewrite H. Qed.

(** On success the handler's outcome is the outcome of [get]; the parser
    is made from the body and from [this.method]. *)
Lemma get_on_success g w doc g' w' :
  Gateway.send popsicle (g, w) = (Normal (Fulfilled doc), (g', w')) →
  Gateway.get popsicle parser createParser result callback (g, w)
  = match createParser (document_body doc) (Gateway.method g') with
    | Normal pa =>
      (Normal (callback pa),
       (g', emit HandlerCalled
              (emit (ParserCreated (document_body doc) (Gateway.method g')) w')))
    | Throw e =>
      (Normal (Rejected e),
       (g', emit (ParserCreated (document_body doc) (Gateway.method g')) w'))
    end.
Proof.
  intros H. unfold Gateway.get, mbind at 1, M_bind at 1. rewrite H.
  unfold mbind, M_bind. cbn. by destruct (createParser _ _).
Qed.

End Get.

(** C3 at [createGateway({method: 'efetch'}).get(handler)] with a
    successful exchange: the constructor keeps the method in
    [settings.method], [get] hands [this.method] to the parser factory,
    which is undefined; the parser is made from the body and undefined,
    not from the method name. *)
Theorem get_parser_method_undefined {parser result : Type}
    (createParser : option jsstring → option jsstring → completion parser)
    (callback : parser → promise result) :
  result_of (g ← createGateway (Args.Make (Some (u "efetch")) None None None None);
             p ← invoke (Gateway.get popsicle_ok parser createParser result callback) g;
             w ← current_world;
             mret (Settings.method (Gateway.settings g), p.1, log w))
  = match createParser (Some (u "{}")) None with
    | Normal pa =>
      Normal (u "efetch", callback pa,
              [Http (Request (u "GET")
                 (u "http://eutils.ncbi.nlm.nih.gov/entrez/eutils/efetch.fcgi?retmode=json"));
               ParserCreated (Some (u "{}")) None; HandlerCalled])
    | Throw e =>
      Normal (u "efetch", Rejected e,
              [Http (Request (u "GET")
                 (u "http://eutils.ncbi.nlm.nih.gov/entrez/eutils/efetch.fcgi?retmode=json"));
               ParserCreated (Some (u "{}")) None])
    end.
Proof.
  unfold result_of, mbind at 1, M_bind at 1.
  rewrite createGateway_run. cbv zeta. unfold mbind at 1, M_bind at 1, invoke.
  erewrite (get_on_success popsicle_ok createParser callback).
  2:{ rewrite send_run.
      replace (encodeURI _) with
        (Normal (u "http://eutils.ncbi.nlm.nih.gov/entrez/eutils/efetch.fcgi?retmode=json"))
        by by vm_compute.
      reflexivity. }
  cbn [document_body Gateway.method with_base body ok_response].
  change (body ok_response) with (u "{}").
  by destruct (createParser _ _).
Qed.


(** ** Sequences of addParams and addIds *)

Lemma run_op_run o g w :
  run_op o (g, w)
  = (Normal (Settings.params (Gateway.settings g)),
     (g, store (Settings.params (Gateway.settings g))
           (Obj.extend (params_of g w) (mapping_of o)) w)).
Proof. by destruct o. Qed.

Lemma params_of_store g o w :
  params_of g (store (Settings.params (Gateway.settings g)) o w) = o.
Proof. apply deref_store_eq. Qed.

Lemma run_ops_spec ops g w :
  ∃ w', run_ops ops (g, w) = (Normal tt, (g, w'))
    ∧ params_of g w'
      = fold_left (λ o op, Obj.extend o (mapping_of op)) ops (params_of g w)
    ∧ (∀ l, l ≠ Settings.params (Gateway.settings g) → deref w' l = deref w l)
    ∧ log w' = log w.
Proof.
  revert w. induction ops as [|o ops IH]; intros w.
  - by exists w.
  - cbn [run_ops fold_left]. unfold mbind, M_bind. rewrite run_op_run.
    destruct (IH (store (Settings.params (Gateway.settings g))
                    (Obj.extend (params_of g w) (mapping_of o)) w))
      as (w' & Hrun & Hp & Hframe & Hlog).
    exists w'. rewrite Hrun, Hp, params_of_store, Hlog.
    split; [done|]. split; [done|]. split; [|done].
    intros l Hl. rewrite Hframe by done. by apply deref_store_ne.
Qed.

Lemma mapping_without_retmode o :
  sets_retmode o = false → Obj.get (u "retmode") (mapping_of o) = None.
Proof.
  destruct o as [extra|i]; cbn [sets_retmode mapping_of].
  - unfold Obj.has. by destruct (Obj.get _ extra).
  - intros _. rewrite literal_singleton by apply id_not_proto. cbn [Obj.get].
    by rewrite decide_False by by vm_compute.
Qed.

Lemma has_set_mono k k' v o : Obj.has k o = true → Obj.has k (Obj.set k' v o) = true.
Proof.
  unfold Obj.has. destruct (decide (k' = k)) as [->|Hne].
  - intros H. rewrite get_set_own; [done|]. exact H.
  - by rewrite get_set_ne.
Qed.

Lemma has_extend_mono k obj source :
  Obj.has k obj = true → Obj.has k (Obj.extend obj source) = true.
Proof.
  unfold Obj.extend. revert obj.
  induction source as [|[k1 v1] source IH]; intros obj H; cbn [fold_left]; [done|].
  apply IH. by apply has_set_mono.
Qed.

(** The [retmode] key is never removed, whatever is merged. *)
Lemma retmode_key_stays ops g w w' :
  Obj.has (u "retmode") (params_of g w) = true →
  run_ops ops (g, w) = (Normal tt, (g, w')) →
  Obj.has (u "retmode") (params_of g w') = true.
Proof.
  intros H Hrun. destruct (run_ops_spec ops g w) as (w'' & Hrun' & Hp & _).
  rewrite Hrun in Hrun'. injection Hrun' as <-. rewrite Hp.
  revert H. generalize (params_of g w). clear.
  induction ops as [|o ops IH]; intros obj H; cbn [fold_left]; [done|].
  apply IH. by apply has_extend_mono.
Qed.

Lemma retmode_untouched ops obj :
  Forall (λ o, sets_retmode o = false) ops →
  Obj.get (u "retmode") (fold_left (λ o op, Obj.extend o (mapping_of op)) ops obj)
  = Obj.get (u "retmode") obj.
Proof.
  intros Hops. revert obj.
  induction Hops as [|o ops Ho Hops IH]; intros obj; cbn [fold_left]; [done|].
  rewrite IH. apply get_extend_untouched. by apply mapping_without_retmode.
Qed.

(** What the constructor returns and what it does to the heap. *)
Lemma createGateway_spec args w :
  ∃ fp g w1,
    createGateway args w = (Normal g, w1)
    ∧ g = Gateway.Make (extend_defaults fp args) None None None
    ∧ (fp ∉ dom (heap w))
    ∧ retmode_mirrors g w1
    ∧ params_of g w1
      = Obj.set (u "retmode") (VStr (Settings.responseType (Gateway.settings g)))
          (if decide (Settings.params (Gateway.settings g) = fp) then []
           else params_of g w)
    ∧ dom (heap w1)
      = {[Settings.params (Gateway.settings g)]} ∪ ({[fp]} ∪ dom (heap w))
    ∧ (∀ l, l ≠ fp → l ≠ Settings.params (Gateway.settings g) →
            deref w1 l = deref w l)
    ∧ log w1 = log w.
Proof.
  pose proof (createGateway_run args w) as Hc. cbv zeta in Hc.
  eexists _, _, _. split; [exact Hc|]. split; [reflexivity|].
  split; [apply is_fresh|]. split.
  { unfold retmode_mirrors.
    by rewrite params_of_store, get_set_eq by apply retmode_not_proto. }
  split.
  { rewrite params_of_store. f_equal. unfold params_of. case_decide as E.
    - rewrite E. apply deref_store_eq.
    - apply deref_store_ne. congruence. }
  split; [by rewrite !dom_store|]. split; [|done].
  intros l H1 H2. rewrite deref_store_ne by congruence.
  apply deref_store_ne. congruence.
Qed.

(** C4, as the code has it: the constructor leaves a [retmode] entry that
    mirrors [settings.responseType], and the entry still mirrors it after
    every sequence of addParams and addIds calls on the gateway in which
    no addParams mapping carries a [retmode] key. *)
Theorem retmode_mirrors_responseType args w ops :
  Forall (λ o, sets_retmode o = false) ops →
  ∃ g w1 w2,
    createGateway args w = (Normal g, w1)
    ∧ retmode_mirrors g w1
    ∧ run_ops ops (g, w1) = (Normal tt, (g, w2))
    ∧ retmode_mirrors g w2.
Proof.
  intros Hops.
  destruct (createGateway_spec args w) as (fp & g & w1 & Hc & _ & _ & Hm & _).
  destruct (run_ops_spec ops g w1) as (w2 & Hrun & Hp & _).
  exists g, w1, w2. repeat (split; [done|]).
  unfold retmode_mirrors in *. by rewrite Hp, retmode_untouched.
Qed.

Lemma retmode_mirrors_responseType_witness :
  Forall (λ o, sets_retmode o = false)
    [AddParams [(u "term", VStr (u "cancer"))];
     AddIds (Gateway.Sequence [VNum 1; VNum 2])]
  ∧ ∃ g w1 w2,
      createGateway (Args.Make None (Some (u "xml")) None None None) empty_world
      = (Normal g, w1)
      ∧ retmode_mirrors g w1
      ∧ run_ops [AddParams [(u "term", VStr (u "cancer"))];
                 AddIds (Gateway.Sequence [VNum 1; VNum 2])] (g, w1)
        = (Normal tt, (g, w2))
      ∧ retmode_mirrors g w2.
Proof.
  assert (Forall (λ o, sets_retmode o = false)
            [AddParams [(u "term", VStr (u "cancer"))];
             AddIds (Gateway.Sequence [VNum 1; VNum 2])]) as H
    by (repeat constructor).
  split; [exact H|].
  exact (retmode_mirrors_responseType _ _ _ H).
Defined.

(** The parameter bag of a constructed gateway is never empty, whatever
    is merged into it afterwards: generateUrl always has a pair to print. *)
Lemma params_never_empty args w ops :
  ∃ g w1 w2,
    createGateway args w = (Normal g, w1)
    ∧ run_ops ops (g, w1) = (Normal tt, (g, w2))
    ∧ params_of g w2 ≠ [].
Proof.
  destruct (createGateway_spec args w) as (fp & g & w1 & Hc & _ & _ & Hm & _).
  destruct (run_ops_spec ops g w1) as (w2 & Hrun & _).
  exists g, w1, w2. repeat (split; [done|]).
  assert (Obj.has (u "retmode") (params_of g w2) = true) as H.
  { apply (retmode_key_stays ops g w1); [|done].
    unfold Obj.has. by rewrite Hm. }
  intros E. by rewrite E in H.
Qed.

(** C4, as stated, fails: addParams with a [retmode] key overwrites the
    entry, which then differs from [settings.responseType]. *)
Lemma retmode_can_leave_responseType :
  result_of (g ← createGateway Args.empty;
             r ← invoke (Gateway.addParams (Obj.literal [(u "retmode", VStr (u "xml"))])) g;
             w ← current_world;
             mret (Obj.get (u "retmode") (params_of r.2 w),
                   Settings.responseType (Gateway.settings r.2)))
  = Normal (Some (VStr (u "xml")), u "json")
  ∧ VStr (u "xml") ≠ VStr (u "json").
Proof. split; by vm_compute. Qed.

(** ** Sharing between gateways *)

(** C5, as the code has it: a gateway built without a [params] argument
    holds a new object, one built with a [params] argument holds that very
    object. So two gateways hold the same parameter object exactly when
    the second is built with, as [args.params], the object the first one
    holds; otherwise building the second leaves the parameters of the
    first as they are, and no sequence of addParams and addIds calls on
    one changes the parameters of the other. *)
Theorem gateways_share_only_a_given_object a1 a2 w ops :
  ∃ g1 g2 w1 w2 w3 w3',
    createGateway a1 w = (Normal g1, w1)
    ∧ createGateway a2 w1 = (Normal g2, w2)
    ∧ run_ops ops (g1, w2) = (Normal tt, (g1, w3))
    ∧ run_ops ops (g2, w2) = (Normal tt, (g2, w3'))
    ∧ (Settings.params (Gateway.settings g1) = Settings.params (Gateway.settings g2)
       ↔ Args.params a2 = Some (Settings.params (Gateway.settings g1)))
    ∧ (Args.params a2 ≠ Some (Settings.params (Gateway.settings g1)) →
       params_of g1 w2 = params_of g1 w1
       ∧ params_of g2 w3 = params_of g2 w2
       ∧ params_of g1 w3' = params_of g1 w2).
Proof.
  destruct (createGateway_spec a1 w)
    as (fp1 & g1 & w1 & Hc1 & Hg1 & _ & _ & _ & Hdom1 & _).
  destruct (createGateway_spec a2 w1)
    as (fp2 & g2 & w2 & Hc2 & Hg2 & Hfp2 & _ & _ & _ & Hframe2 & _).
  destruct (run_ops_spec ops g1 w2) as (w3 & Hr1 & _ & Hf1 & _).
  destruct (run_ops_spec ops g2 w2) as (w3' & Hr2 & _ & Hf2 & _).
  exists g1, g2, w1, w2, w3, w3'. repeat (split; [done|]).
  set (p1 := Settings.params (Gateway.settings g1)) in *.
  assert (p1 ≠ fp2) as Hp1.
  { intros E. apply Hfp2. rewrite Hdom1, <- E. apply elem_of_union_l.
    by apply elem_of_singleton. }
  assert (Settings.params (Gateway.settings g2) = default fp2 (Args.params a2))
    as Hp2 by by rewrite Hg2.
  assert (p1 = Settings.params (Gateway.settings g2) ↔ Args.params a2 = Some p1)
    as Hiff.
  { rewrite Hp2. destruct (Args.params a2) as [l|]; cbn [default].
    - split; [by intros ->|by intros [= ->]].
    - split; [done|discriminate]. }
  split; [exact Hiff|]. intros Hne.
  assert (p1 ≠ Settings.params (Gateway.settings g2)) as Hdiff
    by (intros E; by apply Hne, Hiff).
  unfold params_of. fold p1. split; [|split].
  - by apply Hframe2.
  - apply Hf1. by intros E.
  - by apply Hf2.
Qed.

Lemma gateways_share_only_a_given_object_witness :
  ∃ g1 g2 w1 w2 w3 w3',
    createGateway (Args.Make None None (Some 1%positive) None None) sample_world
    = (Normal g1, w1)
    ∧ createGateway Args.empty w1 = (Normal g2, w2)
    ∧ run_ops [AddParams [(u "x", VNum 1)]] (g1, w2) = (Normal tt, (g1, w3))
    ∧ run_ops [AddParams [(u "x", VNum 1)]] (g2, w2) = (Normal tt, (g2, w3'))
    ∧ Settings.params (Gateway.settings g1) ≠ Settings.params (Gateway.settings g2)
    ∧ params_of g1 w2 = params_of g1 w1
    ∧ params_of g2 w3 = params_of g2 w2
    ∧ params_of g1 w3' = params_of g1 w2.
Proof.
  destruct (gateways_share_only_a_given_object
              (Args.Make None None (Some 1%positive) None None) Args.empty
              sample_world [AddParams [(u "x", VNum 1)]])
    as (g1 & g2 & w1 & w2 & w3 & w3' & H1 & H2 & H3 & H4 & Hiff & Hind).
  exists g1, g2, w1, w2, w3, w3'. repeat (split; [done|]).
  split; [|by apply Hind].
  intros E. by apply Hiff in E.
Defined.

(** C5, as stated, fails: two gateways made from the same argument
    object hold the same [params] object, and addParams on the first
    changes the parameters of the second. *)
Lemma gateways_from_one_argument_share_params :
  result_of (p ← new_object [(u "db", VStr (u "pubmed"))];
             g1 ← createGateway (Args.Make None None (Some p) None None);
             g2 ← createGateway (Args.Make None None (Some p) None None);
             before ← current_world;
             _ ← invoke (Gateway.addParams (Obj.literal [(u "x", VNum 1)])) g1;
             after ← current_world;
             mret (params_of g2 before, params_of g2 after))
  = Normal ([(u "db", VStr (u "pubmed")); (u "retmode", VStr (u "json"))],
            [(u "db", VStr (u "pubmed")); (u "retmode", VStr (u "json"));
             (u "x", VNum 1)]).
Proof. by vm_compute. Qed.

(** ** addIds *)

(** C6, as the code has it: addIds always returns the parameter bag and
    stores under [id] the comma-joined string of a sequence's elements,
    and a scalar as it was passed (a number stays a number); either way
    the text of the stored value is the comma-joined text of the
    identifiers, and [addIds([1,2,3])] and [addIds("1,2,3")] both leave
    the string ["1,2,3"]. *)
Theorem addIds_id_value g w i :
  (Gateway.addIds i (g, w)).1 = Normal (Settings.params (Gateway.settings g))
  ∧ id_after i g w
    = Some (match i with
            | Gateway.Sequence elements => VStr (join (u ",") (map ToString elements))
            | Gateway.Scalar v => v
            end)
  ∧ ToString <$> id_after i g w
    = Some (join (u ",") (map ToString (elements_of i)))
  ∧ id_after (Gateway.Sequence [VNum 1; VNum 2; VNum 3]) g w = Some (VStr (u "1,2,3"))
  ∧ id_after (Gateway.Scalar (VStr (u "1,2,3"))) g w = Some (VStr (u "1,2,3")).
Proof.
  assert (∀ j, id_after j g w = Some (Gateway.idString j)) as H.
  { intros j. unfold id_after. rewrite addIds_run. cbn [snd].
    by rewrite params_of_store, get_set_eq by apply id_not_proto. }
  split; [by rewrite addIds_run|]. rewrite !H.
  split; [by destruct i|]. split; [by destruct i|]. split; by vm_compute.
Qed.

(** C6, as stated, fails: a scalar number is stored as that number, not
    as a string. *)
Lemma addIds_keeps_a_number :
  result_of (g ← createGateway Args.empty;
             r ← invoke (Gateway.addIds (Gateway.Scalar (VNum 789))) g;
             w ← current_world;
             mret (Obj.get (u "id") (params_of r.2 w)))
  = Normal (Some (VNum 789))
  ∧ ∀ s, VNum 789 ≠ VStr s.
Proof. split; [by vm_compute | done]. Qed.

(** ** The named constructors *)

Lemma create_on_new_object props args_of w :
  (∀ l, Args.params (args_of l) = Some l) →
  ∃ l fp w',
    (p ← new_object props; createGateway (args_of p)) w
    = (Normal (Gateway.Make (extend_defaults fp (args_of l)) None None None), w')
    ∧ Settings.params (extend_defaults fp (args_of l)) = l
    ∧ deref w' l
      = Obj.set (u "retmode")
          (VStr (default (u "json") (Args.responseType (args_of l))))
          (Obj.literal props).
Proof.
  intros Hp. unfold mbind, M_bind, new_object, alloc.
  set (l := fresh (dom (heap w))).
  set (w0 := store l (Obj.literal props) w).
  destruct (createGateway_spec (args_of l) w0)
    as (fp & g & w1 & Hc & -> & Hfp & _ & Hpar & _).
  exists l, fp, w1. rewrite Hc. split; [done|].
  assert (Settings.params (extend_defaults fp (args_of l)) = l) as Hl
    by (cbn; by rewrite Hp).
  split; [done|]. unfold params_of in Hpar. cbn [Gateway.settings] in Hpar.
  rewrite Hl in Hpar. rewrite Hpar. cbn [Settings.responseType extend_defaults].
  rewrite decide_False.
  - unfold w0. by rewrite deref_store_eq.
  - intros ->. apply Hfp. unfold w0. rewrite dom_store.
    apply elem_of_union_l. by apply elem_of_singleton.
Qed.

(** C7: [pubmedSearch("cancer", 0, 20)], in every world, gives a gateway
    whose parameters are db, term, retstart, retmax (end minus start) and
    retmode in this order, and whose URL is the one of the scenario. *)
Theorem pubmedSearch_cancer w :
  ∃ g w',
    pubmedSearch (VStr (u "cancer")) 0 20 w = (Normal g, w')
    ∧ params_of g w'
      = [(u "db", VStr (u "pubmed")); (u "term", VStr (u "cancer"));
         (u "retstart", VNum 0); (u "retmax", VNum 20);
         (u "retmode", VStr (u "json"))]
    ∧ (Gateway.generateUrl (g, w')).1
      = Normal (u "http://eutils.ncbi.nlm.nih.gov/entrez/eutils/esearch.fcgi?db=pubmed&term=cancer&retstart=0&retmax=20&retmode=json").
Proof.
  unfold pubmedSearch.
  destruct (create_on_new_object
              [(u "db", VStr (u "pubmed")); (u "term", VStr (u "cancer"));
               (u "retstart", VNum 0);
               (u "retmax", number_value (Double.sub 20 0))]
              (λ p, Args.Make None None (Some p) None (Some (u "esearch"))) w)
    as (l & fp & w' & Hrun & Hl & Hd); [done|].
  eexists _, w'. split; [exact Hrun|].
  assert (params_of (Gateway.Make
            (extend_defaults fp (Args.Make None None (Some l) None (Some (u "esearch"))))
            None None None) w'
          = [(u "db", VStr (u "pubmed")); (u "term", VStr (u "cancer"));
             (u "retstart", VNum 0); (u "retmax", VNum 20);
             (u "retmode", VStr (u "json"))]) as Hp.
  { unfold params_of. cbn [Gateway.settings]. rewrite Hl, Hd. by vm_compute. }
  split; [exact Hp|]. rewrite generateUrl_run, Hp. by vm_compute.
Qed.

(** C8: for every argument, [pubmedRecord] gives a gateway whose response
    type is xml and whose parameters hold [retmode=xml]. *)
Theorem pubmedRecord_retmode_xml ids w :
  ∃ g w',
    pubmedRecord ids w = (Normal g, w')
    ∧ Settings.responseType (Gateway.settings g) = u "xml"
    ∧ Obj.get (u "retmode") (params_of g w') = Some (VStr (u "xml")).
Proof.
  unfold pubmedRecord. unfold mbind at 1, M_bind at 1.
  destruct (create_on_new_object [(u "db", VStr (u "pubmed"))]
              (λ p, Args.Make None (Some (u "xml")) (Some p) None (Some (u "efetch"))) w)
    as (l & fp & w' & Hrun & Hl & Hd); [done|].
  unfold mbind, M_bind in Hrun |- *. 
  destruct (new_object _ w) as [[p|e] w0] eqn:Hn; [|done].
  rewrite Hrun. unfold invoke. rewrite addIds_run.
  eexists _, _. split; [reflexivity|]. split; [reflexivity|].
  cbn [snd]. rewrite params_of_store, get_set_ne by by vm_compute.
  unfold params_of. cbn [Gateway.settings]. rewrite Hl, Hd.
  by rewrite get_set_eq by apply retmode_not_proto.
Qed.

(** ** addParams *)

(** C9, as the code has it: two addParams calls in a row both return the
    parameter bag, which holds the merge. For every key an assignment can
    store (every key but [__proto__], and [__proto__] too when the bag
    owns such a property) a key of the later mapping has the later value,
    a key of the earlier mapping only has the earlier value, any other
    key keeps the value it had; a [__proto__] the bag does not own is
    never stored. *)
Theorem addParams_last_write_wins g w first second :
  NoDup (Obj.keys first) →
  NoDup (Obj.keys second) →
  ∃ w1 w2,
    Gateway.addParams first (g, w)
    = (Normal (Settings.params (Gateway.settings g)), (g, w1))
    ∧ deref w1 (Settings.params (Gateway.settings g))
      = Obj.extend (params_of g w) first
    ∧ Gateway.addParams second (g, w1)
      = (Normal (Settings.params (Gateway.settings g)), (g, w2))
    ∧ deref w2 (Settings.params (Gateway.settings g))
      = Obj.extend (Obj.extend (params_of g w) first) second
    ∧ ∀ k, Obj.get k (params_of g w2)
           = if Obj.assignable k (params_of g w)
             then match Obj.get k second with
                  | Some v => Some v
                  | None => match Obj.get k first with
                            | Some v => Some v
                            | None => Obj.get k (params_of g w)
                            end
                  end
             else None.
Proof.
  intros Hf Hs. eexists _, _. rewrite !addParams_run.
  split; [reflexivity|]. rewrite !params_of_store, deref_store_eq.
  split; [reflexivity|]. split; [reflexivity|].
  rewrite deref_store_eq. split; [reflexivity|].
  intros k. rewrite !get_extend, assignable_extend by done.
  destruct (Obj.assignable k (params_of g w)) eqn:Ha.
  - done.
  - destruct (Obj.get k second), (Obj.get k first); try done.
    all: unfold Obj.assignable, Obj.has in Ha;
      by destruct (Obj.get k (params_of g w)).
Qed.

Lemma addParams_last_write_wins_witness :
  NoDup (Obj.keys [(u "term", VStr (u "cancer")); (u "retmax", VNum 10)])
  ∧ NoDup (Obj.keys [(u "retmax", VNum 20); (u "sort", VStr (u "date"))])
  ∧ ∃ w2, (Gateway.addParams [(u "retmax", VNum 20); (u "sort", VStr (u "date"))]
             (sample_gateway,
              (Gateway.addParams [(u "term", VStr (u "cancer")); (u "retmax", VNum 10)]
                 (sample_gateway, sample_world)).2.2)).2.2 = w2
      ∧ Obj.get (u "retmax") (params_of sample_gateway w2) = Some (VNum 20)
      ∧ Obj.get (u "term") (params_of sample_gateway w2) = Some (VStr (u "cancer"))
      ∧ Obj.get (u "retmode") (params_of sample_gateway w2) = Some (VStr (u "json")).
Proof.
  assert (NoDup (Obj.keys [(u "term", VStr (u "cancer")); (u "retmax", VNum 10)])) as H1.
  { apply (bool_decide_unpack _). by vm_compute. }
  assert (NoDup (Obj.keys [(u "retmax", VNum 20); (u "sort", VStr (u "date"))])) as H2.
  { apply (bool_decide_unpack _). by vm_compute. }
  split; [exact H1|]. split; [exact H2|].
  destruct (addParams_last_write_wins sample_gateway sample_world _ _ H1 H2)
    as (w1 & w2 & E1 & _ & E2 & _ & Hget).
  exists w2. rewrite E1. cbn [snd]. rewrite E2. cbn [snd].
  split; [reflexivity|]. rewrite !Hget. repeat split; by vm_compute.
Defined.

(** C9, as stated, fails: two mappings that both own a [__proto__] key
    (as [JSON.parse] builds them) overlap on it, yet after the two calls
    the parameters hold no such key, not the later value. *)
Lemma addParams_never_stores_proto :
  result_of (g ← createGateway Args.empty;
             _ ← invoke (Gateway.addParams [(Obj.proto, VNum 1)]) g;
             _ ← invoke (Gateway.addParams [(Obj.proto, VNum 2)]) g;
             w ← current_world;
             mret (Obj.get Obj.proto [(Obj.proto, VNum 2)],
                   Obj.get Obj.proto (params_of g w),
                   params_of g w))
  = Normal (Some (VNum 2), None, [(u "retmode", VStr (u "json"))]).
Proof. by vm_compute. Qed.

(** * Further properties of the two modules *)

(** ** encodeURI and lone surrogates *)

Lemma Encode_throws_URIError s e : Encode s = Throw e → e = URIError.
Proof.
  induction s as [| x | x y l IHl IHyl] using list_pair_ind.
  - discriminate.
  - rewrite Encode_cons. cbn [Encode cbind].
    destruct (unescaped x); [discriminate|].
    destruct (is_high x); [congruence|]. destruct (is_low x); [congruence|].
    discriminate.
  - rewrite Encode_cons. destruct (unescaped x).
    + destruct (Encode (y :: l)); [discriminate|]. cbn [cbind].
      intros [= <-]. by apply IHyl.
    + destruct (is_high x).
      * destruct (is_low y); [|congruence].
        destruct (Encode l); [discriminate|]. cbn [cbind].
        intros [= <-]. by apply IHl.
      * destruct (is_low x); [congruence|].
        destruct (Encode (y :: l)); [discriminate|]. cbn [cbind].
        intros [= <-]. by apply IHyl.
Qed.

Lemma Encode_Normal_well_formed s r : Encode s = Normal r → well_formed s = true.
Proof.
  revert r. induction s as [| x | x y l IHl IHyl] using list_pair_ind; intros r.
  - done.
  - rewrite Encode_cons, well_formed_cons. cbn [Encode cbind well_formed].
    destruct (unescaped x) eqn:Hx.
    + by destruct (unescaped_not_surrogate x Hx) as [-> ->].
    + destruct (is_high x); [discriminate|]. by destruct (is_low x).
  - rewrite Encode_cons, well_formed_cons. destruct (unescaped x) eqn:Hx.
    + destruct (unescaped_not_surrogate x Hx) as [-> ->]. cbn [negb andb].
      destruct (Encode (y :: l)) as [r'|] eqn:E; [|discriminate].
      intros _. by apply (IHyl r').
    + destruct (is_high x).
      * destruct (is_low y); [|discriminate].
        destruct (Encode l) as [r'|] eqn:E; [|discriminate].
        intros _. cbn [andb]. by apply (IHl r').
      * destruct (is_low x); [discriminate|]. cbn [negb andb].
        destruct (Encode (y :: l)) as [r'|] eqn:E; [|discriminate].
        intros _. by apply (IHyl r').
Qed.

Lemma well_formed_unescaped_app a b :
  forallb unescaped a = true → well_formed (a ++ b) = well_formed b.
Proof.
  induction a as [|c a IH]; [done|]. cbn [forallb app].
  intros [Hc Ha]%andb_true_iff. rewrite well_formed_cons.
  destruct (unescaped_not_surrogate c Hc) as [-> ->]. cbn [negb andb]. auto.
Qed.

Lemma well_formed_app_split a b :
  head_not_low b = true →
  well_formed (a ++ b) = well_formed a && well_formed b.
Proof.
  intros Hb. induction a as [| x | x y l IHl IHyl] using list_pair_ind.
  - done.
  - cbn [app]. rewrite !well_formed_cons. destruct (is_high x).
    + destruct b as [|c b]; [done|]. cbn [head_not_low] in Hb.
      apply negb_true_iff in Hb. by rewrite Hb.
    + cbn [well_formed]. by rewrite andb_true_r.
  - cbn [app]. rewrite (well_formed_cons x (y :: l)).
    rewrite (well_formed_cons x (y :: l ++ b)). destruct (is_high x).
    + by rewrite IHl, andb_assoc.
    + change (y :: l ++ b) with ((y :: l) ++ b). by rewrite IHyl, andb_assoc.
Qed.

Lemma well_formed_pair_text kv :
  well_formed (pair_text kv) = well_formed kv.1 && well_formed (ToString kv.2).
Proof.
  unfold pair_text. rewrite well_formed_app_split by done.
  by rewrite (well_formed_unescaped_app (u "=")).
Qed.

Lemma well_formed_query_forallb entries :
  well_formed (query entries)
  = forallb (λ kv, well_formed kv.1 && well_formed (ToString kv.2)) entries.
Proof.
  unfold query. induction entries as [|kv1 [|kv2 entries] IH]; [done| |].
  - cbn [map join forallb]. by rewrite well_formed_pair_text, andb_true_r.
  - change (well_formed (pair_text kv1 ++ u "&"
              ++ join (u "&") (map pair_text (kv2 :: entries)))
            = well_formed kv1.1 && well_formed (ToString kv1.2)
              && forallb (λ kv, well_formed kv.1 && well_formed (ToString kv.2))
                   (kv2 :: entries)).
    rewrite well_formed_app_split by done.
    by rewrite (well_formed_unescaped_app (u "&")), IH, well_formed_pair_text.
Qed.

Lemma removelast_base_path m :
  removelast (base_path m)
  = u "http://eutils.ncbi.nlm.nih.gov/entrez/eutils/" ++ m ++ u ".fcgi".
Proof.
  unfold base_path. rewrite removelast_app.
  - rewrite removelast_app; [reflexivity | by vm_compute].
  - intros [_ E]%app_eq_nil. revert E. by vm_compute.
Qed.

(** The text generateUrl hands to encodeURI. *)
Lemma raw_url_well_formed g w :
  well_formed
    (drop_last_unit
       (fold_left Gateway.append_param (params_of g w)
          (base_path (Settings.method (Gateway.settings g)))))
  = strings_well_formed g w.
Proof.
  unfold strings_well_formed. destruct (params_of g w) as [|kv entries] eqn:E.
  - cbn [fold_left forallb]. unfold drop_last_unit.
    rewrite removelast_base_path, well_formed_unescaped_app by done.
    rewrite well_formed_app_split by done. reflexivity.
  - rewrite raw_url_query by done. unfold base_path.
    rewrite <- !app_assoc, well_formed_unescaped_app by done.
    rewrite well_formed_app_split by done.
    by rewrite (well_formed_unescaped_app (u ".fcgi?")), well_formed_query_forallb.
Qed.

(** ** The encoding of the whole URL *)

Lemma percent_encode_cons c rest :
  percent_encode (c :: rest)
  = if unescaped c then c :: percent_encode rest
    else if is_high c then
      match rest with
      | l :: rest' =>
        if is_low l then escape (pair_code_point c l) ++ percent_encode rest'
        else percent_encode rest
      | [] => []
      end
    else if is_low c then percent_encode rest
    else escape c ++ percent_encode rest.
Proof. reflexivity. Qed.

Lemma Encode_percent_encode s :
  well_formed s = true → Encode s = Normal (percent_encode s).
Proof.
  induction s as [| x | x y l IHl IHyl] using list_pair_ind.
  - done.
  - rewrite well_formed_cons, Encode_cons, percent_encode_cons.
    cbn [Encode cbind percent_encode well_formed].
    destruct (unescaped x); [done|]. destruct (is_high x); [done|].
    by destruct (is_low x).
  - rewrite well_formed_cons, Encode_cons, percent_encode_cons.
    destruct (unescaped x) eqn:Hx.
    + destruct (unescaped_not_surrogate x Hx) as [-> ->]. cbn [negb andb].
      intros H. by rewrite (IHyl H).
    + destruct (is_high x).
      * intros [-> H]%andb_true_iff. by rewrite (IHl H).
      * destruct (is_low x); [done|]. cbn [negb andb].
        intros H. by rewrite (IHyl H).
Qed.

Lemma percent_encode_app a b :
  well_formed a = true →
  percent_encode (a ++ b) = percent_encode a ++ percent_encode b.
Proof.
  induction a as [| x | x y l IHl IHyl] using list_pair_ind.
  - done.
  - rewrite well_formed_cons. cbn [app]. rewrite !percent_encode_cons.
    cbn [percent_encode well_formed]. destruct (unescaped x); [done|].
    destruct (is_high x); [done|]. destruct (is_low x); [done|].
    intros _. by rewrite app_nil_r.
  - rewrite well_formed_cons. cbn [app].
    rewrite (percent_encode_cons x (y :: l)), (percent_encode_cons x (y :: l ++ b)).
    destruct (unescaped x) eqn:Hx.
    + destruct (unescaped_not_surrogate x Hx) as [-> ->]. cbn [negb andb].
      intros H. change (y :: l ++ b) with ((y :: l) ++ b). by rewrite (IHyl H).
    + destruct (is_high x).
      * intros [-> H]%andb_true_iff. by rewrite (IHl H), app_assoc.
      * destruct (is_low x); [done|]. cbn [negb andb].
        intros H. change (y :: l ++ b) with ((y :: l) ++ b).
        by rewrite (IHyl H), app_assoc.
Qed.

Lemma percent_encode_unescaped s :
  forallb unescaped s = true → percent_encode s = s.
Proof.
  induction s as [|c s IH]; [done|]. cbn [forallb].
  intros [Hc Hs]%andb_true_iff. by rewrite percent_encode_cons, Hc, IH.
Qed.

Lemma percent_encode_pair_text kv :
  well_formed kv.1 = true →
  percent_encode (pair_text kv)
  = percent_encode kv.1 ++ u "=" ++ percent_encode (ToString kv.2).
Proof.
  intros Hk. unfold pair_text. rewrite percent_encode_app by done.
  by rewrite (percent_encode_app (u "=")).
Qed.

Lemma percent_encode_query entries :
  forallb (λ kv, well_formed kv.1 && well_formed (ToString kv.2)) entries = true →
  percent_encode (query entries)
  = join (u "&")
      (map (λ kv, percent_encode kv.1 ++ u "=" ++ percent_encode (ToString kv.2))
         entries).
Proof.
  unfold query. induction entries as [|kv1 [|kv2 entries] IH]; [done| |].
  - cbn [forallb map join]. intros [[Hk _]%andb_true_iff _]%andb_true_iff.
    by apply percent_encode_pair_text.
  - intros [[Hk Hv]%andb_true_iff H]%andb_true_iff.
    change (percent_encode
              (pair_text kv1 ++ u "&" ++ join (u "&") (map pair_text (kv2 :: entries)))
            = (percent_encode kv1.1 ++ u "=" ++ percent_encode (ToString kv1.2))
              ++ u "&"
              ++ join (u "&")
                   (map (λ kv, percent_encode kv.1 ++ u "="
                               ++ percent_encode (ToString kv.2))
                      (kv2 :: entries))).
    rewrite percent_encode_app
      by (rewrite well_formed_pair_text; by apply andb_true_iff).
    rewrite (percent_encode_app (u "&")) by done.
    by rewrite IH, percent_encode_pair_text.
Qed.

(** C10: generateUrl passes the assembled URL through encodeURI as a
    whole. For every gateway (with at least one parameter and no lone
    surrogate) the URL is the base path and the [key=value] pairs joined
    by [&], where the method, each key and each value are encoded with
    the table of encodeURI: a character of its unescaped set, [&], [=],
    [?] and [#] among them, stays where it is, also inside a value, and
    every other character becomes [%XX]. *)
Theorem generateUrl_encodes_with_encodeURI g w :
  params_of g w ≠ [] →
  strings_well_formed g w = true →
  (Gateway.generateUrl (g, w)).1
  = Normal (u "http://eutils.ncbi.nlm.nih.gov/entrez/eutils/"
            ++ percent_encode (Settings.method (Gateway.settings g))
            ++ u ".fcgi?"
            ++ join (u "&")
                 (map (λ kv, percent_encode kv.1 ++ u "="
                             ++ percent_encode (ToString kv.2))
                    (params_of g w)))
  ∧ (∀ s c t, well_formed s = true → unescaped c = true →
       percent_encode (s ++ c :: t) = percent_encode s ++ c :: percent_encode t)
  ∧ (∀ c t, unescaped c = false → is_high c = false → is_low c = false →
       percent_encode (c :: t) = escape c ++ percent_encode t)
  ∧ forallb unescaped (u ";/?:@&=+$,#") = true.
Proof.
  intros Hne Hwf. split; [|split; [|split]].
  - rewrite generateUrl_run. cbn [fst]. unfold encodeURI.
    rewrite Encode_percent_encode by by rewrite raw_url_well_formed.
    rewrite raw_url_query by done. f_equal.
    unfold strings_well_formed in Hwf. apply andb_true_iff in Hwf as [Hm Hb].
    unfold base_path.
    rewrite <- !app_assoc, percent_encode_app by done.
    rewrite (percent_encode_unescaped (u "http://eutils.ncbi.nlm.nih.gov/entrez/eutils/"))
      by done.
    rewrite percent_encode_app by done.
    rewrite (percent_encode_app (u ".fcgi?")) by done.
    by rewrite percent_encode_query.
  - intros s c t Hs Hc. rewrite percent_encode_app by done.
    by rewrite percent_encode_cons, Hc.
  - intros c t Hc Hh Hl. by rewrite percent_encode_cons, Hc, Hh, Hl.
  - reflexivity.
Qed.

Lemma generateUrl_encodes_with_encodeURI_witness :
  params_of sample_gateway reserved_world ≠ []
  ∧ strings_well_formed sample_gateway reserved_world = true
  ∧ (Gateway.generateUrl (sample_gateway, reserved_world)).1
    = Normal (u "http://eutils.ncbi.nlm.nih.gov/entrez/eutils/esearch.fcgi?term=breast%20cancer&db=protein&retmode=json")
  ∧ (Gateway.generateUrl (sample_gateway, split_world)).1
    = (Gateway.generateUrl (sample_gateway, reserved_world)).1.
Proof.
  assert (params_of sample_gateway reserved_world ≠ []) as H by by vm_compute.
  split; [exact H|]. split; [reflexivity|].
  destruct (generateUrl_encodes_with_encodeURI sample_gateway reserved_world H eq_refl)
    as [E _].
  rewrite E. split; by vm_compute.
Defined.

(** X1. generateUrl returns a URL exactly when no method, key or value holds a
    lone surrogate; otherwise it throws, and what it throws is URIError. *)
Theorem generateUrl_throws_on_lone_surrogate g w :
  match (Gateway.generateUrl (g, w)).1 with
  | Normal _ => strings_well_formed g w = true
  | Throw e => e = URIError ∧ strings_well_formed g w = false
  end.
Proof.
  rewrite generateUrl_run. cbn [fst]. unfold encodeURI.
  rewrite <- raw_url_well_formed.
  destruct (Encode _) as [r|e] eqn:E.
  - by apply Encode_Normal_well_formed in E.
  - split; [by apply Encode_throws_URIError in E|].
    destruct (well_formed _) eqn:Hwf; [|done].
    apply Encode_well_formed in Hwf as [r Hr]. congruence.
Qed.

(** X2. With an empty parameter bag there is no separator to remove, and the
    character generateUrl removes is the [?] of the base path. *)
Theorem generateUrl_empty_bag g w :
  params_of g w = [] →
  forallb unescaped (Settings.method (Gateway.settings g)) = true →
  (Gateway.generateUrl (g, w)).1
  = Normal (u "http://eutils.ncbi.nlm.nih.gov/entrez/eutils/"
            ++ Settings.method (Gateway.settings g) ++ u ".fcgi").
Proof.
  intros He Hm. rewrite generateUrl_run, He. cbn [fst fold_left].
  unfold drop_last_unit, encodeURI. rewrite removelast_base_path.
  apply Encode_unescaped. rewrite !forallb_app, Hm. reflexivity.
Qed.

Lemma generateUrl_empty_bag_witness :
  params_of sample_gateway bare_world = []
  ∧ (Gateway.generateUrl (sample_gateway, bare_world)).1
    = Normal (u "http://eutils.ncbi.nlm.nih.gov/entrez/eutils/esearch.fcgi").
Proof.
  assert (params_of sample_gateway bare_world = []) as H by by vm_compute.
  split; [exact H|].
  exact (generateUrl_empty_bag sample_gateway bare_world H eq_refl).
Defined.

(** ** send *)

(** X3. send never writes the heap, and it logs nothing or one request, which
    is a GET. *)
Theorem send_one_GET_at_most popsicle g w :
  heap (Gateway.send popsicle (g, w)).2.2 = heap w
  ∧ (log (Gateway.send popsicle (g, w)).2.2 = log w
     ∨ ∃ url, log (Gateway.send popsicle (g, w)).2.2
              = log w ++ [Http (Request (u "GET") url)]).
Proof.
  rewrite send_run. destruct (encodeURI _) as [url|e].
  - destruct (Gateway.truthy (Gateway.test g)); cbn [snd]; [by auto|].
    split; [done|]. right. by exists url.
  - by auto.
Qed.

(** X4. A gateway that holds a lone surrogate never reaches popsicle: send
    and get throw URIError and log nothing. *)
Theorem lone_surrogate_stops_send popsicle {parser result : Type}
    (createParser : option jsstring → option jsstring → completion parser)
    (callback : parser → promise result) g w :
  strings_well_formed g w = false →
  Gateway.send popsicle (g, w) = (Throw URIError, (with_base g, w))
  ∧ Gateway.get popsicle parser createParser result callback (g, w)
    = (Throw URIError, (with_base g, w)).
Proof.
  intros H.
  assert (Gateway.send popsicle (g, w) = (Throw URIError, (with_base g, w))) as Hs.
  { rewrite send_run. unfold encodeURI. rewrite <- raw_url_well_formed in H.
    destruct (Encode _) as [url|e] eqn:E.
    - apply Encode_Normal_well_formed in E. congruence.
    - by apply Encode_throws_URIError in E as ->. }
  split; [done|]. unfold Gateway.get, mbind, M_bind. by rewrite Hs.
Qed.

Lemma lone_surrogate_stops_send_witness :
  strings_well_formed sample_gateway broken_world = false
  ∧ Gateway.send popsicle_ok (sample_gateway, broken_world)
    = (Throw URIError, (with_base sample_gateway, broken_world))
  ∧ Gateway.get popsicle_ok _ parser_keeps _ (λ _, Fulfilled tt)
      (sample_gateway, broken_world)
    = (Throw URIError, (with_base sample_gateway, broken_world)).
Proof.
  split; [reflexivity|].
  apply (lone_surrogate_stops_send popsicle_ok parser_keeps (λ _, Fulfilled tt)).
  reflexivity.
Defined.

(** X5. When a caller has set [test] on the gateway itself, send resolves
    with the announcement of the URL and logs no request. *)
Theorem send_in_test_mode popsicle g w url :
  Gateway.truthy (Gateway.test g) = true →
  (Gateway.generateUrl (g, w)).1 = Normal url →
  Gateway.send popsicle (g, w)
  = (Normal (Fulfilled (DocText (u "Test call to NCBI eUtils: " ++ url))),
     (with_base g, w)).
Proof.
  intros Ht. rewrite send_run, generateUrl_run. cbn [fst]. intros ->.
  by rewrite Ht.
Qed.

Lemma send_in_test_mode_witness :
  Gateway.truthy (Gateway.test test_gateway) = true
  ∧ Gateway.send popsicle_down (test_gateway, sample_world)
    = (Normal (Fulfilled (DocText
         (u "Test call to NCBI eUtils: http://eutils.ncbi.nlm.nih.gov/entrez/eutils/esearch.fcgi?retmode=json&term=a&"))),
       (with_base test_gateway, sample_world)).
Proof.
  split; [reflexivity|].
  apply (send_in_test_mode popsicle_down test_gateway sample_world); [reflexivity|].
  by vm_compute.
Defined.

(** ** get *)

Section GetOutcomes.

Context (popsicle : request → promise response).
Context {parser result : Type}.
Context (createParser : option jsstring → option jsstring → completion parser).
Context (callback : parser → promise result).

(** X6. When the exchange does not succeed, get settles as popsicle did (the
    same rejection, or never) and only the request is logged: the parser
    factory and the handler are not called. *)
Theorem get_passes_failure_on g w url :
  (Gateway.generateUrl (g, w)).1 = Normal url →
  Gateway.truthy (Gateway.test g) = false →
  (∀ resp, popsicle (Request (u "GET") url) ≠ Fulfilled resp) →
  Gateway.get popsicle parser createParser result callback (g, w)
  = (Normal (match popsicle (Request (u "GET") url) with
             | Rejected e => Rejected e
             | _ => Pending
             end),
     (with_base g, emit (Http (Request (u "GET") url)) w)).
Proof.
  rewrite generateUrl_run. cbn [fst]. intros Hu Ht Hp.
  unfold Gateway.get, mbind, M_bind. rewrite send_run, Hu, Ht.
  by destruct (popsicle _) as [resp|e|]; [destruct (Hp resp)| |].
Qed.

(** X7. When the parser factory throws, get rejects with what it threw and
    the handler is not called. *)
Theorem get_rejects_when_parser_throws g w url resp e :
  (Gateway.generateUrl (g, w)).1 = Normal url →
  Gateway.truthy (Gateway.test g) = false →
  popsicle (Request (u "GET") url) = Fulfilled resp →
  createParser (Some (body resp)) (Gateway.method g) = Throw e →
  Gateway.get popsicle parser createParser result callback (g, w)
  = (Normal (Rejected e),
     (with_base g,
      emit (ParserCreated (Some (body resp)) (Gateway.method g))
        (emit (Http (Request (u "GET") url)) w))).
Proof.
  rewrite generateUrl_run. cbn [fst]. intros Hu Ht Hp Hc.
  erewrite get_on_success.
  2:{ rewrite send_run, Hu, Ht, Hp. reflexivity. }
  cbn [document_body]. change (Gateway.method (with_base g)) with (Gateway.method g).
  by rewrite Hc.
Qed.

(** X8. When the exchange succeeds and the parser is made, the handler is
    called once, after the request and the parser factory, and what it
    returns settles get. *)
Theorem get_returns_handler_result g w url resp pa :
  (Gateway.generateUrl (g, w)).1 = Normal url →
  Gateway.truthy (Gateway.test g) = false →
  popsicle (Request (u "GET") url) = Fulfilled resp →
  createParser (Some (body resp)) (Gateway.method g) = Normal pa →
  Gateway.get popsicle parser createParser result callback (g, w)
  = (Normal (callback pa),
     (with_base g,
      World (heap w)
        (log w ++ [Http (Request (u "GET") url);
                   ParserCreated (Some (body resp)) (Gateway.method g);
                   HandlerCalled]))).
Proof.
  rewrite generateUrl_run. cbn [fst]. intros Hu Ht Hp Hc.
  erewrite get_on_success.
  2:{ rewrite send_run, Hu, Ht, Hp. reflexivity. }
  cbn [document_body]. change (Gateway.method (with_base g)) with (Gateway.method g).
  rewrite Hc. unfold emit. cbn [heap log]. by rewrite <- !app_assoc.
Qed.

(** X9. In test mode the document is the announcement, a string, which has no
    body: the parser factory is called with an undefined body, and no
    request is logged. *)
Theorem get_in_test_mode g w url :
  (Gateway.generateUrl (g, w)).1 = Normal url →
  Gateway.truthy (Gateway.test g) = true →
  Gateway.get popsicle parser createParser result callback (g, w)
  = match createParser None (Gateway.method g) with
    | Normal pa =>
      (Normal (callback pa),
       (with_base g,
        World (heap w)
          (log w ++ [ParserCreated None (Gateway.method g); HandlerCalled])))
    | Throw e =>
      (Normal (Rejected e),
       (with_base g,
        World (heap w) (log w ++ [ParserCreated None (Gateway.method g)])))
    end.
Proof.
  rewrite generateUrl_run. cbn [fst]. intros Hu Ht. erewrite get_on_success.
  2:{ rewrite send_run, Hu, Ht. reflexivity. }
  cbn [document_body]. change (Gateway.method (with_base g)) with (Gateway.method g).
  destruct (createParser _ _); unfold emit; cbn [heap log]; [|done].
  by rewrite <- !app_assoc.
Qed.

End GetOutcomes.

Lemma get_passes_failure_on_witness :
  Gateway.truthy (Gateway.test sample_gateway) = false
  ∧ (∀ resp, popsicle_down (Request (u "GET") sample_url) ≠ Fulfilled resp)
  ∧ Gateway.get popsicle_down _ parser_keeps _ (λ _, Fulfilled tt)
      (sample_gateway, sample_world)
    = (Normal (Rejected (Raised (u "ECONNREFUSED"))),
       (with_base sample_gateway,
        emit (Http (Request (u "GET") sample_url)) sample_world)).
Proof.
  split; [reflexivity|]. split; [done|].
  apply (get_passes_failure_on popsicle_down parser_keeps (λ _, Fulfilled tt)
           sample_gateway sample_world sample_url);
    [by vm_compute | reflexivity | done].
Defined.

Lemma get_rejects_when_parser_throws_witness :
  popsicle_ok (Request (u "GET") sample_url) = Fulfilled ok_response
  ∧ parser_refuses (Some (body ok_response)) (Gateway.method sample_gateway)
    = Throw (Raised (u "unparsable"))
  ∧ Gateway.get popsicle_ok _ parser_refuses _ (λ _, Fulfilled tt)
      (sample_gateway, sample_world)
    = (Normal (Rejected (Raised (u "unparsable"))),
       (with_base sample_gateway,
        emit (ParserCreated (Some (body ok_response)) None)
          (emit (Http (Request (u "GET") sample_url)) sample_world))).
Proof.
  split; [reflexivity|]. split; [reflexivity|].
  apply (get_rejects_when_parser_throws popsicle_ok parser_refuses (λ _, Fulfilled tt)
           sample_gateway sample_world sample_url ok_response);
    [by vm_compute | reflexivity | reflexivity | reflexivity].
Defined.

Lemma get_returns_handler_result_witness :
  popsicle_ok (Request (u "GET") sample_url) = Fulfilled ok_response
  ∧ Gateway.get popsicle_ok _ parser_keeps _ (λ pa, Fulfilled pa)
      (sample_gateway, sample_world)
    = (Normal (Fulfilled (Some (u "{}"), None)),
       (with_base sample_gateway,
        World (heap sample_world)
          (log sample_world
           ++ [Http (Request (u "GET") sample_url);
               ParserCreated (Some (body ok_response)) None;
               HandlerCalled]))).
Proof.
  split; [reflexivity|].
  apply (get_returns_handler_result popsicle_ok parser_keeps (λ pa, Fulfilled pa)
           sample_gateway sample_world sample_url ok_response);
    [by vm_compute | reflexivity | reflexivity | reflexivity].
Defined.

Lemma get_in_test_mode_witness :
  Gateway.truthy (Gateway.test test_gateway) = true
  ∧ Gateway.get popsicle_down _ parser_keeps _ (λ pa, Fulfilled pa)
      (test_gateway, sample_world)
    = (Normal (Fulfilled (None, None)),
       (with_base test_gateway,
        World (heap sample_world)
          (log sample_world ++ [ParserCreated None None; HandlerCalled]))).
Proof.
  split; [reflexivity|].
  apply (get_in_test_mode popsicle_down parser_keeps (λ pa, Fulfilled pa)
           test_gateway sample_world sample_url);
    [by vm_compute | reflexivity].
Defined.

(** ** Assigning a property twice *)

Lemma replace_replace k v1 v2 o :
  Obj.replace k v2 (Obj.replace k v1 o) = Obj.replace k v2 o.
Proof.
  induction o as [|[k1 w1] o IH]; [done|]. cbn [Obj.replace].
  destruct (decide (k1 = k)) as [->|Hne]; cbn [Obj.replace].
  - by rewrite decide_True.
  - by rewrite decide_False, IH.
Qed.

Lemma replace_insert_index i k v1 v2 o :
  Obj.get k o = None →
  Obj.replace k v2 (Obj.insert_index i k v1 o) = Obj.insert_index i k v2 o.
Proof.
  induction o as [|[k1 w1] o IH]; cbn [Obj.get Obj.insert_index Obj.replace].
  - by rewrite decide_True.
  - destruct (decide (k1 = k)) as [->|Hne]; [done|]. intros H.
    destruct (Obj.array_index k1) as [j|]; [destruct (j <? i)|];
      cbn [Obj.replace].
    + by rewrite decide_False, IH.
    + by rewrite decide_True.
    + by rewrite decide_True.
Qed.

Lemma replace_app_new k v1 v2 o :
  Obj.get k o = None →
  Obj.replace k v2 (o ++ [(k, v1)]) = o ++ [(k, v2)].
Proof.
  induction o as [|[k1 w1] o IH]; cbn [Obj.get Obj.replace app].
  - by rewrite decide_True.
  - destruct (decide (k1 = k)) as [->|Hne]; [done|]. intros H. by rewrite IH.
Qed.

Lemma replace_same k v o : Obj.get k o = Some v → Obj.replace k v o = o.
Proof.
  induction o as [|[k1 w1] o IH]; [done|]. cbn [Obj.get Obj.replace].
  destruct (decide (k1 = k)) as [->|Hne].
  - by intros [= ->].
  - intros H. by rewrite IH.
Qed.

Lemma has_set k v o : Obj.has k (Obj.set k v o) = Obj.assignable k o.
Proof.
  unfold Obj.has. rewrite get_set_same. by destruct (Obj.assignable k o).
Qed.

Lemma set_set k v1 v2 o : Obj.set k v2 (Obj.set k v1 o) = Obj.set k v2 o.
Proof.
  destruct (Obj.assignable k o) eqn:Ha.
  - unfold Obj.set at 1. rewrite has_set, Ha. unfold Obj.set.
    unfold Obj.assignable in Ha. destruct (Obj.has k o) eqn:H.
    + apply replace_replace.
    + cbn [orb] in Ha. destruct (bool_decide (k = Obj.proto)); [done|].
      unfold Obj.has in H. destruct (Obj.get k o) eqn:G; [done|].
      destruct (Obj.array_index k).
      * by apply replace_insert_index.
      * by apply replace_app_new.
  - unfold Obj.assignable in Ha. apply orb_false_iff in Ha as [H Hk].
    apply negb_false_iff, bool_decide_eq_true in Hk. subst k.
    by rewrite (set_new_proto v1).
Qed.

Lemma set_same k v o : Obj.get k o = Some v → Obj.set k v o = o.
Proof.
  intros H. unfold Obj.set, Obj.has. rewrite H. by apply replace_same.
Qed.

Lemma store_store l o1 o2 w : store l o2 (store l o1 w) = store l o2 w.
Proof. unfold store. cbn [heap log]. by rewrite insert_insert_eq. Qed.

(** X10. Of two addIds calls in a row only the second counts: the gateway and
    the world are left as by the second call alone, with [id] at the place
    the first call gave it. *)
Theorem addIds_last_call_wins i1 i2 g w :
  (Gateway.addIds i1 ;; Gateway.addIds i2) (g, w) = Gateway.addIds i2 (g, w).
Proof.
  unfold mbind, M_bind. rewrite !addIds_run.
  by rewrite params_of_store, set_set, store_store.
Qed.

(** ** Merging the same mapping twice *)

Lemma get_of_elem k v o :
  NoDup (Obj.keys o) → (k, v) ∈ o → Obj.get k o = Some v.
Proof.
  induction o as [|[k1 v1] o IH]; [by intros _ ?%elem_of_nil|].
  cbn [Obj.keys map fst Obj.get]. intros [Hk Hnd]%NoDup_cons [E|Hin]%elem_of_cons.
  - injection E as -> ->. by rewrite decide_True.
  - destruct (decide (k1 = k)) as [->|Hne]; [|by apply IH].
    exfalso. apply Hk. apply list_elem_of_fmap. by exists (k, v).
Qed.

Lemma extend_fixed obj source :
  (∀ k v, (k, v) ∈ source → Obj.set k v obj = obj) →
  Obj.extend obj source = obj.
Proof.
  unfold Obj.extend. induction source as [|[k1 v1] source IH]; [done|].
  intros H. cbn [fold_left fst snd]. rewrite H.
  - apply IH. intros k v Hin. apply H. by apply elem_of_cons; right.
  - by apply elem_of_cons; left.
Qed.

Lemma extend_extend obj source :
  NoDup (Obj.keys source) →
  Obj.extend (Obj.extend obj source) source = Obj.extend obj source.
Proof.
  intros Hnd. apply extend_fixed. intros k v Hin.
  destruct (Obj.assignable k obj) eqn:Ha.
  - apply set_same. by rewrite get_extend, (get_of_elem k v source), Ha.
  - unfold Obj.assignable in Ha. apply orb_false_iff in Ha as [H Hk].
    apply negb_false_iff, bool_decide_eq_true in Hk. subst k.
    apply set_new_proto. unfold Obj.has.
    rewrite get_extend, (get_of_elem _ v source) by done.
    unfold Obj.assignable. by rewrite H, bool_decide_true.
Qed.

(** X11. addParams is idempotent: merging a mapping a second time changes
    neither the parameter bag nor anything else. *)
Theorem addParams_idempotent extra g w :
  NoDup (Obj.keys extra) →
  (Gateway.addParams extra ;; Gateway.addParams extra) (g, w)
  = Gateway.addParams extra (g, w).
Proof.
  intros Hnd. unfold mbind, M_bind. rewrite !addParams_run.
  by rewrite params_of_store, extend_extend, store_store.
Qed.

Lemma addParams_idempotent_witness :
  NoDup (Obj.keys [(u "retmax", VNum 20); (u "sort", VStr (u "date"))])
  ∧ (Gateway.addParams [(u "retmax", VNum 20); (u "sort", VStr (u "date"))] ;;
     Gateway.addParams [(u "retmax", VNum 20); (u "sort", VStr (u "date"))])
      (sample_gateway, sample_world)
    = Gateway.addParams [(u "retmax", VNum 20); (u "sort", VStr (u "date"))]
        (sample_gateway, sample_world).
Proof.
  assert (NoDup (Obj.keys [(u "retmax", VNum 20); (u "sort", VStr (u "date"))])) as H.
  { apply (bool_decide_unpack _). by vm_compute. }
  split; [exact H|]. exact (addParams_idempotent _ sample_gateway sample_world H).
Defined.

(** ** Keys stay unique *)

Lemma keys_replace k v o : Obj.keys (Obj.replace k v o) = Obj.keys o.
Proof.
  unfold Obj.keys. induction o as [|[k1 v1] o IH]; [done|]. cbn [Obj.replace].
  destruct (decide (k1 = k)); cbn [map fst]; [done|]. by rewrite IH.
Qed.

Lemma keys_insert_index i k v o :
  Obj.keys (Obj.insert_index i k v o) ≡ₚ k :: Obj.keys o.
Proof.
  unfold Obj.keys. induction o as [|[k1 v1] o IH]; [done|].
  cbn [Obj.insert_index].
  destruct (Obj.array_index k1) as [j|]; [destruct (j <? i)|]; cbn [map fst];
    [|done|done].
  rewrite IH. apply Permutation_swap.
Qed.

Lemma NoDup_keys_set k v o :
  NoDup (Obj.keys o) → NoDup (Obj.keys (Obj.set k v o)).
Proof.
  intros Hnd. unfold Obj.set. destruct (Obj.has k o) eqn:H.
  - by rewrite keys_replace.
  - destruct (bool_decide (k = Obj.proto)); [done|].
    unfold Obj.has in H. destruct (Obj.get k o) eqn:G; [done|].
    apply get_None_not_key in G.
    destruct (Obj.array_index k).
    + rewrite keys_insert_index. by apply NoDup_cons.
    + unfold Obj.keys in *. rewrite map_app. cbn [map fst].
      apply NoDup_app. split; [done|]. split; [|apply NoDup_singleton].
      intros x Hx ->%list_elem_of_singleton. done.
Qed.

Lemma NoDup_keys_extend obj source :
  NoDup (Obj.keys obj) → NoDup (Obj.keys (Obj.extend obj source)).
Proof.
  unfold Obj.extend. revert obj.
  induction source as [|[k1 v1] source IH]; intros obj H; cbn [fold_left]; [done|].
  apply IH. by apply NoDup_keys_set.
Qed.

Lemma keys_sublist_insert_index i k v o :
  Obj.keys o `sublist_of` Obj.keys (Obj.insert_index i k v o).
Proof.
  unfold Obj.keys. induction o as [|[k1 v1] o IH]; cbn [Obj.insert_index].
  - apply sublist_nil_l.
  - destruct (Obj.array_index k1) as [j|]; [destruct (j <? i)|]; cbn [map fst].
    + by apply sublist_skip.
    + by apply sublist_cons.
    + by apply sublist_cons.
Qed.

Lemma keys_sublist_set k v o :
  Obj.keys o `sublist_of` Obj.keys (Obj.set k v o).
Proof.
  unfold Obj.set. destruct (Obj.has k o).
  - by rewrite keys_replace.
  - destruct (bool_decide (k = Obj.proto)); [done|].
    destruct (Obj.array_index k).
    + apply keys_sublist_insert_index.
    + unfold Obj.keys. rewrite map_app. by apply sublist_inserts_r.
Qed.

Lemma keys_sublist_extend obj source :
  Obj.keys obj `sublist_of` Obj.keys (Obj.extend obj source).
Proof.
  unfold Obj.extend. revert obj.
  induction source as [|[k1 v1] source IH]; intros obj; cbn [fold_left]; [done|].
  etransitivity; [|apply IH]. apply keys_sublist_set.
Qed.

(** X12. Through every sequence of addParams and addIds calls the
    parameters that are there stay, in the order they have (what is
    written to an own key replaces the value where it stands, what is new
    is put in between or after), and no key comes to stand twice. *)
Theorem keys_stay_unique ops g w :
  NoDup (Obj.keys (params_of g w)) →
  ∃ w', run_ops ops (g, w) = (Normal tt, (g, w'))
    ∧ Obj.keys (params_of g w) `sublist_of` Obj.keys (params_of g w')
    ∧ NoDup (Obj.keys (params_of g w')).
Proof.
  intros Hnd. destruct (run_ops_spec ops g w) as (w' & Hrun & Hp & _).
  exists w'. split; [done|]. rewrite Hp. clear Hp Hrun.
  revert Hnd. generalize (params_of g w).
  induction ops as [|o ops IH]; intros obj Hobj; cbn [fold_left]; [done|].
  destruct (IH (Obj.extend obj (mapping_of o))) as [Hsub Hnd];
    [by apply NoDup_keys_extend|].
  split; [|done]. etransitivity; [|exact Hsub]. apply keys_sublist_extend.
Qed.

Lemma keys_stay_unique_witness :
  NoDup (Obj.keys (params_of sample_gateway sample_world))
  ∧ ∃ w', run_ops [AddParams [(u "term", VStr (u "b")); (u "sort", VStr (u "date"))];
                   AddIds (Gateway.Scalar (VNum 7));
                   AddIds (Gateway.Sequence [VNum 8; VNum 9])]
            (sample_gateway, sample_world)
          = (Normal tt, (sample_gateway, w'))
      ∧ Obj.keys (params_of sample_gateway sample_world)
        `sublist_of` Obj.keys (params_of sample_gateway w')
      ∧ NoDup (Obj.keys (params_of sample_gateway w')).
Proof.
  assert (NoDup (Obj.keys (params_of sample_gateway sample_world))) as H.
  { apply (bool_decide_unpack _). by vm_compute. }
  split; [exact H|]. exact (keys_stay_unique _ sample_gateway sample_world H).
Defined.

(** ** A scalar and the sequence that holds it *)

Lemma printed_replace k v v' o :
  ToString v = ToString v' →
  printed (Obj.replace k v o) = printed (Obj.replace k v' o).
Proof.
  intros E. unfold printed. induction o as [|[k1 v1] o IH]; [done|].
  cbn [Obj.replace]. destruct (decide (k1 = k)); cbn [map fst snd].
  - by rewrite E.
  - by rewrite IH.
Qed.

Lemma printed_insert_index i k v v' o :
  ToString v = ToString v' →
  printed (Obj.insert_index i k v o) = printed (Obj.insert_index i k v' o).
Proof.
  intros E. unfold printed. induction o as [|[k1 v1] o IH]; cbn [Obj.insert_index].
  - cbn [map fst snd]. by rewrite E.
  - destruct (Obj.array_index k1) as [j|]; [destruct (j <? i)|]; cbn [map fst snd].
    + by rewrite IH.
    + by rewrite E.
    + by rewrite E.
Qed.

Lemma printed_set k v v' o :
  ToString v = ToString v' →
  printed (Obj.set k v o) = printed (Obj.set k v' o).
Proof.
  intros E. unfold Obj.set. destruct (Obj.has k o).
  - by apply printed_replace.
  - destruct (bool_decide (k = Obj.proto)); [done|].
    destruct (Obj.array_index k).
    + by apply printed_insert_index.
    + unfold printed. rewrite !map_app. cbn [map fst snd]. by rewrite E.
Qed.

Lemma fold_append_param_printed o1 o2 b :
  printed o1 = printed o2 →
  fold_left Gateway.append_param o1 b = fold_left Gateway.append_param o2 b.
Proof.
  intros E. rewrite !fold_append_param. f_equal. f_equal.
  assert (∀ o, map (λ kv, pair_text kv ++ u "&") o
               = map (λ kt : jsstring * jsstring, (kt.1 ++ u "=" ++ kt.2) ++ u "&")
                   (printed o)) as H.
  { intros o. unfold printed. by rewrite List.map_map. }
  by rewrite !H, E.
Qed.

(** X13. addIds with a scalar and addIds with the one-element sequence that
    holds it give the same result of generateUrl, although the first
    stores the scalar and the second a string. *)
Theorem scalar_and_singleton_same_url v g w :
  (Gateway.generateUrl (Gateway.addIds (Gateway.Scalar v) (g, w)).2).1
  = (Gateway.generateUrl (Gateway.addIds (Gateway.Sequence [v]) (g, w)).2).1.
Proof.
  rewrite !addIds_run. cbn [snd]. rewrite !generateUrl_run. cbn [fst].
  rewrite !params_of_store. f_equal. f_equal.
  apply fold_append_param_printed, printed_set. reflexivity.
Qed.

(** ** What the named constructors build *)

Lemma new_gateway_spec props args_of w :
  (∀ l, Args.params (args_of l) = Some l) →
  ∃ l fp w',
    (p ← new_object props; createGateway (args_of p)) w
    = (Normal (Gateway.Make (extend_defaults fp (args_of l)) None None None), w')
    ∧ Settings.params (extend_defaults fp (args_of l)) = l
    ∧ deref w' l
      = Obj.set (u "retmode")
          (VStr (default (u "json") (Args.responseType (args_of l))))
          (Obj.literal props)
    ∧ built_beside l w w'.
Proof.
  intros Hp. unfold mbind, M_bind, new_object, alloc.
  set (l := fresh (dom (heap w))).
  set (w0 := store l (Obj.literal props) w).
  assert (l ∉ dom (heap w)) as Hl by apply is_fresh.
  assert (dom (heap w0) = {[l]} ∪ dom (heap w)) as Hd0 by apply dom_store.
  destruct (createGateway_spec (args_of l) w0)
    as (fp & g & w1 & Hc & -> & Hfp & _ & Hpar & Hdom & Hframe & Hlog).
  exists l, fp, w1. rewrite Hc. split; [done|].
  assert (Settings.params (extend_defaults fp (args_of l)) = l) as Hpl
    by (cbn; by rewrite Hp).
  cbn [Gateway.settings] in *. rewrite Hpl in *.
  assert (l ≠ fp) as Hne.
  { intros ->. apply Hfp. rewrite Hd0. apply elem_of_union_l.
    by apply elem_of_singleton. }
  split; [done|]. split.
  { unfold params_of in Hpar. cbn [Gateway.settings] in Hpar.
    rewrite Hpl in Hpar. rewrite Hpar, decide_False by done.
    unfold w0. by rewrite deref_store_eq. }
  split; [done|]. split.
  { rewrite Hdom. apply elem_of_union_l. by apply elem_of_singleton. }
  split.
  { rewrite Hdom, Hd0. intros x Hx. by do 3 apply elem_of_union_r. }
  split; [|by rewrite Hlog].
  intros l' Hl'. rewrite Hframe.
  - unfold w0. apply deref_store_ne. by intros ->.
  - intros ->. apply Hfp. rewrite Hd0. by apply elem_of_union_r.
  - by intros ->.
Qed.

Lemma new_gateway_with_ids_spec props args_of ids w :
  (∀ l, Args.params (args_of l) = Some l) →
  ∃ l fp w',
    (p ← new_object props;
     gateway ← createGateway (args_of p);
     r ← invoke (Gateway.addIds ids) gateway;
     mret r.2) w
    = (Normal (Gateway.Make (extend_defaults fp (args_of l)) None None None), w')
    ∧ Settings.params (extend_defaults fp (args_of l)) = l
    ∧ deref w' l
      = Obj.set (u "id") (Gateway.idString ids)
          (Obj.set (u "retmode")
             (VStr (default (u "json") (Args.responseType (args_of l))))
             (Obj.literal props))
    ∧ built_beside l w w'.
Proof.
  intros Hp.
  destruct (new_gateway_spec props args_of w Hp)
    as (l & fp & w1 & Hrun & Hpl & Hbag & Hl & Hl1 & Hsub & Hframe & Hlog).
  unfold mbind, M_bind in Hrun |- *.
  destruct (new_object props w) as [[p|e] w0]; [|done].
  exists l, fp. rewrite Hrun. unfold invoke. rewrite addIds_run.
  cbn [Gateway.settings]. rewrite Hpl. unfold params_of.
  cbn [Gateway.settings]. rewrite Hpl, Hbag.
  eexists. split; [reflexivity|]. split; [done|].
  split; [by rewrite deref_store_eq|]. split; [done|]. split.
  { rewrite dom_store. apply elem_of_union_l. by apply elem_of_singleton. }
  split.
  { rewrite dom_store. intros x Hx. apply elem_of_union_r. by apply Hsub. }
  split; [|done].
  intros l' Hl'. rewrite deref_store_ne; [by apply Hframe|]. by intros ->.
Qed.

Lemma round_exact x : (Z.abs x < 2 ^ 53)%Z → Double.round x = Double.Finite x.
Proof.
  intros H. unfold Double.round.
  by destruct (Z.ltb_spec (Z.abs x) (2 ^ 53)); [|lia].
Qed.

(** X14. pubmedSearch, for every query and all integer-valued doubles
    start and end: the bag holds db, term, retstart, retmax and retmode in
    this order; retmax is the double [end - start] as it comes, negative
    when end is below start, rounded when the difference is no double. *)
Theorem pubmedSearch_params query start end_ w :
  Double.is_double start = true →
  Double.is_double end_ = true →
  ∃ g w',
    pubmedSearch query start end_ w = (Normal g, w')
    ∧ params_of g w'
      = [(u "db", VStr (u "pubmed")); (u "term", query);
         (u "retstart", VNum start);
         (u "retmax", number_value (Double.sub end_ start));
         (u "retmode", VStr (u "json"))].
Proof.
  intros _ _. unfold pubmedSearch.
  destruct (new_gateway_spec
              [(u "db", VStr (u "pubmed")); (u "term", query);
               (u "retstart", VNum start);
               (u "retmax", number_value (Double.sub end_ start))]
              (λ p, Args.Make None None (Some p) None (Some (u "esearch"))) w)
    as (l & fp & w' & Hrun & Hl & Hd & _); [done|].
  eexists _, w'. split; [exact Hrun|].
  unfold params_of. cbn [Gateway.settings]. rewrite Hl, Hd. reflexivity.
Qed.

Lemma pubmedSearch_params_witness :
  Double.is_double (-2) = true
  ∧ Double.is_double 9007199254740991 = true
  ∧ ∃ g w',
      pubmedSearch (VStr (u "cancer")) (-2) 9007199254740991 empty_world
      = (Normal g, w')
      ∧ params_of g w'
        = [(u "db", VStr (u "pubmed")); (u "term", VStr (u "cancer"));
           (u "retstart", VNum (-2));
           (u "retmax", VNum 9007199254740992);
           (u "retmode", VStr (u "json"))].
Proof.
  split; [reflexivity|]. split; [reflexivity|].
  exact (pubmedSearch_params (VStr (u "cancer")) (-2) 9007199254740991
           empty_world eq_refl eq_refl).
Defined.

(** X15. pubmedSummary, for every argument: db, retmode=json, then id. *)
Theorem pubmedSummary_params ids w :
  ∃ g w',
    pubmedSummary ids w = (Normal g, w')
    ∧ params_of g w'
      = [(u "db", VStr (u "pubmed")); (u "retmode", VStr (u "json"));
         (u "id", Gateway.idString ids)].
Proof.
  unfold pubmedSummary.
  destruct (new_gateway_with_ids_spec [(u "db", VStr (u "pubmed"))]
              (λ p, Args.Make None None (Some p) None (Some (u "esummary"))) ids w)
    as (l & fp & w' & Hrun & Hl & Hd & _); [done|].
  eexists _, w'. split; [exact Hrun|].
  unfold params_of. cbn [Gateway.settings]. rewrite Hl, Hd. reflexivity.
Qed.

(** X16. pubmedRecord, for every argument: db, retmode=xml, then id. *)
Theorem pubmedRecord_params ids w :
  ∃ g w',
    pubmedRecord ids w = (Normal g, w')
    ∧ params_of g w'
      = [(u "db", VStr (u "pubmed")); (u "retmode", VStr (u "xml"));
         (u "id", Gateway.idString ids)].
Proof.
  unfold pubmedRecord.
  destruct (new_gateway_with_ids_spec [(u "db", VStr (u "pubmed"))]
              (λ p, Args.Make None (Some (u "xml")) (Some p) None (Some (u "efetch"))) ids w)
    as (l & fp & w' & Hrun & Hl & Hd & _); [done|].
  eexists _, w'. split; [exact Hrun|].
  unfold params_of. cbn [Gateway.settings]. rewrite Hl, Hd. reflexivity.
Qed.

(** X17. pubmedLinks, for every argument: db, dbfrom, cmd=neighbor,
    retmode=json, then id. *)
Theorem pubmedLinks_params id w :
  ∃ g w',
    pubmedLinks id w = (Normal g, w')
    ∧ params_of g w'
      = [(u "db", VStr (u "pubmed")); (u "dbfrom", VStr (u "pubmed"));
         (u "cmd", VStr (u "neighbor")); (u "retmode", VStr (u "json"));
         (u "id", Gateway.idString id)].
Proof.
  unfold pubmedLinks.
  destruct (new_gateway_with_ids_spec
              [(u "db", VStr (u "pubmed")); (u "dbfrom", VStr (u "pubmed"));
               (u "cmd", VStr (u "neighbor"))]
              (λ p, Args.Make None None (Some p) None (Some (u "elink"))) id w)
    as (l & fp & w' & Hrun & Hl & Hd & _); [done|].
  eexists _, w'. split; [exact Hrun|].
  unfold params_of. cbn [Gateway.settings]. rewrite Hl, Hd. reflexivity.
Qed.

Lemma construct_spec c w :
  ∃ l g w',
    construct c w = (Normal g, w')
    ∧ g = Gateway.Make
            (Settings.Make (u "esearch")
               (match c with Record_ _ => u "xml" | _ => u "json" end)
               l false (Some (documentType_of c)))
            None None None
    ∧ built_beside l w w'.
Proof.
  destruct c as [query start end_|ids|ids|id]; cbn [construct documentType_of].
  - unfold pubmedSearch.
    destruct (new_gateway_spec
                [(u "db", VStr (u "pubmed")); (u "term", query);
                 (u "retstart", VNum start);
                 (u "retmax", number_value (Double.sub end_ start))]
                (λ p, Args.Make None None (Some p) None (Some (u "esearch"))) w)
      as (l & fp & w' & Hrun & Hl & _ & Hb); [done|].
    exists l. eexists _, w'. split; [exact Hrun|]. split; [|done].
    reflexivity.
  - unfold pubmedSummary.
    destruct (new_gateway_with_ids_spec [(u "db", VStr (u "pubmed"))]
                (λ p, Args.Make None None (Some p) None (Some (u "esummary"))) ids w)
      as (l & fp & w' & Hrun & Hl & _ & Hb); [done|].
    exists l. eexists _, w'. split; [exact Hrun|]. split; [|done].
    reflexivity.
  - unfold pubmedRecord.
    destruct (new_gateway_with_ids_spec [(u "db", VStr (u "pubmed"))]
                (λ p, Args.Make None (Some (u "xml")) (Some p) None (Some (u "efetch"))) ids w)
      as (l & fp & w' & Hrun & Hl & _ & Hb); [done|].
    exists l. eexists _, w'. split; [exact Hrun|]. split; [|done].
    reflexivity.
  - unfold pubmedLinks.
    destruct (new_gateway_with_ids_spec
                [(u "db", VStr (u "pubmed")); (u "dbfrom", VStr (u "pubmed"));
                 (u "cmd", VStr (u "neighbor"))]
                (λ p, Args.Make None None (Some p) None (Some (u "elink"))) id w)
      as (l & fp & w' & Hrun & Hl & _ & Hb); [done|].
    exists l. eexists _, w'. split; [exact Hrun|]. split; [|done].
    reflexivity.
Qed.

(** X18. Whatever its arguments, a named constructor leaves [settings.method]
    at the default [esearch]: the name it passes is kept as
    [settings.documentType], which no method reads, and the gateway's own
    [method] and [test] stay undefined. *)
Theorem named_constructors_keep_default_method c w :
  ∃ g w',
    construct c w = (Normal g, w')
    ∧ Settings.method (Gateway.settings g) = u "esearch"
    ∧ Settings.documentType (Gateway.settings g) = Some (documentType_of c)
    ∧ Gateway.method g = None
    ∧ Gateway.test g = None
    ∧ Settings.test (Gateway.settings g) = false.
Proof.
  destruct (construct_spec c w) as (l & g & w' & Hrun & -> & _).
  by eexists _, w'.
Qed.

(** X19. A named constructor has no effect but construction: the parameter
    bag of its gateway is a new object, the objects that were there keep
    their properties, and nothing is logged. *)
Theorem named_constructors_only_construct c w :
  ∃ g w',
    construct c w = (Normal g, w')
    ∧ built_beside (Settings.params (Gateway.settings g)) w w'.
Proof.
  destruct (construct_spec c w) as (l & g & w' & Hrun & -> & Hb).
  by eexists _, w'.
Qed.

(** X20. Two gateways from named constructors never share their parameters:
    building the second leaves the bag of the first as it is, and no
    sequence of addParams and addIds calls on one changes the bag of the
    other. *)
Theorem named_gateways_independent c1 c2 w ops :
  ∃ g1 g2 w1 w2 w3 w3',
    construct c1 w = (Normal g1, w1)
    ∧ construct c2 w1 = (Normal g2, w2)
    ∧ Settings.params (Gateway.settings g1) ≠ Settings.params (Gateway.settings g2)
    ∧ params_of g1 w2 = params_of g1 w1
    ∧ run_ops ops (g1, w2) = (Normal tt, (g1, w3))
    ∧ params_of g2 w3 = params_of g2 w2
    ∧ run_ops ops (g2, w2) = (Normal tt, (g2, w3'))
    ∧ params_of g1 w3' = params_of g1 w2.
Proof.
  destruct (construct_spec c1 w) as (l1 & g1 & w1 & Hrun1 & Hg1 & _ & Hin1 & _).
  destruct (construct_spec c2 w1)
    as (l2 & g2 & w2 & Hrun2 & Hg2 & Hout2 & _ & _ & Hframe2 & _).
  assert (Settings.params (Gateway.settings g1) = l1) as E1 by by rewrite Hg1.
  assert (Settings.params (Gateway.settings g2) = l2) as E2 by by rewrite Hg2.
  assert (l1 ≠ l2) as Hne by by intros ->.
  destruct (run_ops_spec ops g1 w2) as (w3 & Hr1 & _ & Hf1 & _).
  destruct (run_ops_spec ops g2 w2) as (w3' & Hr2 & _ & Hf2 & _).
  exists g1, g2, w1, w2, w3, w3'. rewrite E1, E2. repeat (split; [done|]).
  unfold params_of. rewrite E1, E2.
  split; [by apply Hframe2|]. split; [done|].
  split; [apply Hf1; by rewrite E1|]. split; [done|].
  apply Hf2. by rewrite E2.
Qed.

(** ** What the constructor does to its argument *)

(** X21. The constructor writes into the [params] object of its caller: the
    gateway holds that very object, and the object has [retmode] set from
    the response type, over a [retmode] the caller wrote; every other
    object is left alone and nothing is logged. *)
Theorem createGateway_writes_callers_params args l w :
  Args.params args = Some l →
  l ∈ dom (heap w) →
  ∃ g w',
    createGateway args w = (Normal g, w')
    ∧ Settings.params (Gateway.settings g) = l
    ∧ deref w' l
      = Obj.set (u "retmode")
          (VStr (default (u "json") (Args.responseType args))) (deref w l)
    ∧ (∀ l', l' ∈ dom (heap w) → l' ≠ l → deref w' l' = deref w l')
    ∧ log w' = log w.
Proof.
  intros Hp Hl.
  destruct (createGateway_spec args w)
    as (fp & g & w' & Hc & -> & Hfp & _ & Hpar & _ & Hframe & Hlog).
  assert (Settings.params (extend_defaults fp args) = l) as E
    by (cbn; by rewrite Hp).
  cbn [Gateway.settings] in *. rewrite E in *.
  eexists _, w'. split; [exact Hc|]. split; [done|]. split.
  { unfold params_of in Hpar. cbn [Gateway.settings] in Hpar. rewrite E in Hpar.
    rewrite Hpar, decide_False; [done|]. by intros ->. }
  split; [|done]. intros l' Hl' Hne. apply Hframe; [|done]. by intros ->.
Qed.

Lemma createGateway_writes_callers_params_witness :
  1%positive ∈ dom (heap sample_world)
  ∧ ∃ g w',
      createGateway callers_args sample_world = (Normal g, w')
      ∧ Settings.params (Gateway.settings g) = 1%positive
      ∧ deref w' 1%positive
        = Obj.set (u "retmode") (VStr (u "xml")) (deref sample_world 1%positive)
      ∧ (∀ l', l' ∈ dom (heap sample_world) → l' ≠ 1%positive →
               deref w' l' = deref sample_world l')
      ∧ log w' = log sample_world.
Proof.
  assert (1%positive ∈ dom (heap sample_world)) as H by by vm_compute.
  split; [exact H|].
  exact (createGateway_writes_callers_params callers_args 1%positive sample_world
           eq_refl H).
Defined.

(** X22. Without a [params] argument the bag of the gateway is a new object
    that holds [retmode] only. *)
Theorem createGateway_default_params args w :
  Args.params args = None →
  ∃ g w',
    createGateway args w = (Normal g, w')
    ∧ params_of g w'
      = [(u "retmode", VStr (default (u "json") (Args.responseType args)))]
    ∧ built_beside (Settings.params (Gateway.settings g)) w w'.
Proof.
  intros Hp.
  destruct (createGateway_spec args w)
    as (fp & g & w' & Hc & -> & Hfp & _ & Hpar & Hdom & Hframe & Hlog).
  assert (Settings.params (extend_defaults fp args) = fp) as E
    by (cbn; by rewrite Hp).
  cbn [Gateway.settings] in *. rewrite E in *.
  eexists _, w'. split; [exact Hc|]. split.
  { rewrite Hpar, decide_True by done. reflexivity. }
  cbn [Gateway.settings]. rewrite E. split; [done|]. split.
  { rewrite Hdom. apply elem_of_union_l. by apply elem_of_singleton. }
  split.
  { rewrite Hdom. intros x Hx. by do 2 apply elem_of_union_r. }
  split; [|done]. intros l' Hl'. apply Hframe; by intros ->.
Qed.

Lemma createGateway_default_params_witness :
  Args.params Args.empty = None
  ∧ ∃ g w',
      createGateway Args.empty sample_world = (Normal g, w')
      ∧ params_of g w' = [(u "retmode", VStr (u "json"))]
      ∧ built_beside (Settings.params (Gateway.settings g)) sample_world w'.
Proof.
  split; [reflexivity|].
  exact (createGateway_default_params Args.empty sample_world eq_refl).
Defined.

(** ** The characters of the URL *)

Lemma lor_below_256 a b : a < 256 → b < 256 → N.lor a b < 256.
Proof.
  intros Ha Hb. destruct (N.eq_dec (N.lor a b) 0) as [->|Hne]; [lia|].
  change 256 with (2 ^ 8). apply N.log2_lt_pow2; [lia|].
  rewrite N.log2_lor. apply N.max_lub_lt.
  - destruct (N.eq_dec a 0) as [->|Ha0]; [done|].
    apply N.log2_lt_pow2; [lia|]. exact Ha.
  - destruct (N.eq_dec b 0) as [->|Hb0]; [done|].
    apply N.log2_lt_pow2; [lia|]. exact Hb.
Qed.

Lemma land_63_below a : N.land a 63 < 64.
Proof.
  change 63 with (N.ones 6). rewrite N.land_ones. by apply N.mod_lt.
Qed.

Lemma land_15_below a : N.land a 15 < 16.
Proof.
  change 15 with (N.ones 4). rewrite N.land_ones. by apply N.mod_lt.
Qed.

Lemma shiftr_below a n k : a < k * 2 ^ n → N.shiftr a n < k.
Proof.
  intros H. rewrite N.shiftr_div_pow2.
  apply N.Div0.div_lt_upper_bound. lia.
Qed.

Lemma utf8_bytes cp : cp < 1114112 → Forall (λ b, b < 256) (utf8 cp).
Proof.
  intros H. unfold utf8.
  pose proof (land_63_below cp). pose proof (land_63_below (N.shiftr cp 6)).
  pose proof (land_63_below (N.shiftr cp 12)).
  destruct (N.ltb_spec cp 128); [repeat constructor; lia|].
  destruct (N.ltb_spec cp 2048).
  { repeat constructor; apply lor_below_256; try lia.
    enough (N.shiftr cp 6 < 32) by lia. by apply shiftr_below. }
  destruct (N.ltb_spec cp 65536).
  { repeat constructor; apply lor_below_256; try lia.
    enough (N.shiftr cp 12 < 16) by lia. by apply shiftr_below. }
  repeat constructor; apply lor_below_256; try lia.
  enough (N.shiftr cp 18 < 5) by lia. apply shiftr_below. lia.
Qed.

Lemma hex_digit_unescaped d : d < 16 → unescaped (hex_digit d) = true.
Proof.
  intros H. destruct d as [|p]; [reflexivity|].
  do 5 (try destruct p as [p|p|]; try lia; try reflexivity).
Qed.

Lemma percent_url_units b : b < 256 → forallb url_unit (percent b) = true.
Proof.
  intros H. unfold percent, url_unit. cbn [forallb].
  rewrite !hex_digit_unescaped; [reflexivity| apply land_15_below |].
  by apply shiftr_below.
Qed.

Lemma escape_url_units cp : cp < 1114112 → forallb url_unit (escape cp) = true.
Proof.
  intros H%utf8_bytes. unfold escape.
  induction H as [|b bs Hb Hbs IH]; [done|]. cbn [map concat].
  by rewrite forallb_app, percent_url_units, IH.
Qed.

Lemma pair_code_point_below hi lo :
  is_high hi = true → is_low lo = true → pair_code_point hi lo < 1114112.
Proof.
  unfold is_high, is_low, pair_code_point.
  intros [_ H1%N.leb_le]%andb_true_iff [_ H2%N.leb_le]%andb_true_iff. lia.
Qed.

Lemma Encode_url_units s r :
  forallb code_unit s = true → Encode s = Normal r → forallb url_unit r = true.
Proof.
  revert r. induction s as [| x | x y l IHl IHyl] using list_pair_ind; intros r.
  - by intros _ [= <-].
  - cbn [forallb]. rewrite Encode_cons. cbn [Encode cbind].
    intros [Hx%N.ltb_lt _]%andb_true_iff. destruct (unescaped x) eqn:Hu.
    + intros [= <-]. cbn [forallb]. unfold url_unit at 1. by rewrite Hu.
    + destruct (is_high x); [done|]. destruct (is_low x); [done|].
      intros [= <-]. rewrite app_nil_r. apply escape_url_units. lia.
  - intros Hs. rewrite Encode_cons.
    assert (code_unit x = true ∧ forallb code_unit (y :: l) = true) as [Hx Hyl]
      by by apply andb_true_iff.
    assert (forallb code_unit l = true) as Hl
      by by apply andb_true_iff in Hyl as [_ ?].
    apply N.ltb_lt in Hx.
    destruct (unescaped x) eqn:Hu.
    + destruct (Encode (y :: l)) as [r'|] eqn:E; [|done]. cbn [cbind].
      intros [= <-]. cbn [forallb]. unfold url_unit at 1. rewrite Hu.
      by apply IHyl.
    + destruct (is_high x) eqn:Hh.
      * destruct (is_low y) eqn:Hlo; [|done].
        destruct (Encode l) as [r'|] eqn:E; [|done]. cbn [cbind].
        intros [= <-]. rewrite forallb_app, (IHl r') by done.
        by rewrite escape_url_units by by apply pair_code_point_below.
      * destruct (is_low x); [done|].
        destruct (Encode (y :: l)) as [r'|] eqn:E; [|done]. cbn [cbind].
        intros [= <-]. rewrite forallb_app, (IHyl r') by done.
        rewrite escape_url_units by lia. reflexivity.
Qed.

Lemma forallb_removelast {A} (P : A → bool) l :
  forallb P l = true → forallb P (removelast l) = true.
Proof.
  induction l as [|x [|y l] IH]; [done|done|].
  change (removelast (x :: y :: l)) with (x :: removelast (y :: l)).
  cbn [forallb] in *. intros [-> H]%andb_true_iff. by apply IH.
Qed.

Lemma raw_url_units g w :
  strings_are_units g w = true →
  forallb code_unit
    (drop_last_unit
       (fold_left Gateway.append_param (params_of g w)
          (base_path (Settings.method (Gateway.settings g))))) = true.
Proof.
  unfold strings_are_units. intros [Hm Hb]%andb_true_iff.
  apply forallb_removelast. rewrite fold_append_param, forallb_app.
  apply andb_true_iff. split.
  - unfold base_path. rewrite !forallb_app, Hm. reflexivity.
  - induction (params_of g w) as [|kv entries IH]; [done|].
    cbn [forallb map concat] in *.
    apply andb_true_iff in Hb as [[Hk Hv]%andb_true_iff Hrest].
    unfold pair_text at 1. rewrite !forallb_app.
    repeat (apply andb_true_iff; split); auto.
Qed.

(** X23. Whatever the parameters hold, the URL generateUrl returns is made of
    the characters encodeURI leaves alone and of [%] only: letters, digits
    and ASCII punctuation. *)
Theorem generateUrl_url_characters g w url :
  strings_are_units g w = true →
  (Gateway.generateUrl (g, w)).1 = Normal url →
  forallb url_unit url = true.
Proof.
  intros Hu. rewrite generateUrl_run. cbn [fst]. unfold encodeURI.
  apply Encode_url_units. by apply raw_url_units.
Qed.

Lemma generateUrl_url_characters_witness :
  strings_are_units sample_gateway unicode_world = true
  ∧ (Gateway.generateUrl (sample_gateway, unicode_world)).1
    = Normal (u "http://eutils.ncbi.nlm.nih.gov/entrez/eutils/esearch.fcgi?term=%C3%A9%20%E2%82%AC%F0%9F%98%80")
  ∧ forallb url_unit
      (u "http://eutils.ncbi.nlm.nih.gov/entrez/eutils/esearch.fcgi?term=%C3%A9%20%E2%82%AC%F0%9F%98%80")
    = true.
Proof.
  assert ((Gateway.generateUrl (sample_gateway, unicode_world)).1
          = Normal (u "http://eutils.ncbi.nlm.nih.gov/entrez/eutils/esearch.fcgi?term=%C3%A9%20%E2%82%AC%F0%9F%98%80"))
    as H by by vm_compute.
  split; [reflexivity|]. split; [exact H|].
  exact (generateUrl_url_characters sample_gateway unicode_world _ eq_refl H).
Defined.

(** ** The order of the parameters *)

Lemma extend_appends obj source :
  NoDup (Obj.keys source) →
  no_index_keys source = true →
  (∀ k, k ∈ Obj.keys source → Obj.get k obj = None) →
  Obj.extend obj source = obj ++ Obj.without_proto source.
Proof.
  unfold Obj.extend. revert obj.
  induction source as [|[k1 v1] source IH]; intros obj Hnd Hix Hnew;
    cbn [fold_left fst snd Obj.without_proto List.filter].
  - by rewrite app_nil_r.
  - cbn [Obj.keys map fst] in Hnd. apply NoDup_cons in Hnd as [Hk1 Hnd].
    cbn [no_index_keys forallb fst] in Hix.
    apply andb_true_iff in Hix as [Hix1 Hix].
    assert (Obj.get k1 obj = None) as Hg1
      by (apply Hnew; cbn; by apply elem_of_cons; left).
    destruct (decide (k1 = Obj.proto)) as [->|Hp].
    + rewrite bool_decide_true by done. cbn [negb].
      rewrite set_new_proto by (unfold Obj.has; by rewrite Hg1).
      apply IH; [done|done|].
      intros k Hk. apply Hnew. cbn. by apply elem_of_cons; right.
    + rewrite bool_decide_false by done. cbn [negb].
      assert (Obj.set k1 v1 obj = obj ++ [(k1, v1)]) as ->.
      { unfold Obj.set, Obj.has. rewrite Hg1, bool_decide_false by done.
        by destruct (Obj.array_index k1). }
      fold (Obj.without_proto source).
      rewrite IH, <- app_assoc; [done|done|done|].
      intros k Hk. rewrite get_app, (Hnew k) by (cbn; by apply elem_of_cons; right).
      cbn [Obj.get]. rewrite decide_False; [done|]. by intros ->.
Qed.

(** X24. addParams with keys that are all new (and none an array index)
    puts them after the parameters that are there, in the order of the
    mapping: the parameters print in insertion order. A [__proto__] key
    of the mapping is the exception: it is not stored. *)
Theorem addParams_appends_new_keys extra g w :
  NoDup (Obj.keys extra) →
  no_index_keys extra = true →
  (∀ k, k ∈ Obj.keys extra → Obj.get k (params_of g w) = None) →
  params_of g (Gateway.addParams extra (g, w)).2.2
  = params_of g w ++ Obj.without_proto extra.
Proof.
  intros Hnd Hix Hnew. rewrite addParams_run. cbn [snd].
  by rewrite params_of_store, extend_appends.
Qed.

Lemma addParams_appends_new_keys_witness :
  NoDup (Obj.keys [(u "sort", VStr (u "date")); (Obj.proto, VNum 1);
                   (u "retmax", VNum 5)])
  ∧ params_of sample_gateway
      (Gateway.addParams [(u "sort", VStr (u "date")); (Obj.proto, VNum 1);
                          (u "retmax", VNum 5)]
         (sample_gateway, sample_world)).2.2
    = [(u "retmode", VStr (u "json")); (u "term", VStr (u "a&"));
       (u "sort", VStr (u "date")); (u "retmax", VNum 5)].
Proof.
  assert (NoDup (Obj.keys [(u "sort", VStr (u "date")); (Obj.proto, VNum 1);
                           (u "retmax", VNum 5)])) as H.
  { apply (bool_decide_unpack _). by vm_compute. }
  split; [exact H|].
  rewrite (addParams_appends_new_keys _ sample_gateway sample_world H eq_refl).
  - by vm_compute.
  - intros k Hk. cbn in Hk.
    apply elem_of_cons in Hk as [->|Hk]; [by vm_compute|].
    apply elem_of_cons in Hk as [->|Hk]; [by vm_compute|].
    apply list_elem_of_singleton in Hk as ->. by vm_compute.
Defined.

(** X25. A new key that is an array index (a canonical decimal number) does
    not go last: in a bag without such keys it is put first, and so it
    prints first in the URL. *)
Theorem index_key_goes_first k i v g w :
  Obj.array_index k = Some i →
  no_index_keys (params_of g w) = true →
  params_of g (Gateway.addParams [(k, v)] (g, w)).2.2 = (k, v) :: params_of g w.
Proof.
  intros Hk Hix. rewrite addParams_run. cbn [snd]. rewrite params_of_store.
  unfold Obj.extend. cbn [fold_left fst snd]. unfold Obj.set, Obj.has.
  destruct (Obj.get k (params_of g w)) as [v'|] eqn:G.
  - exfalso. revert G Hix. generalize (params_of g w). intros o.
    induction o as [|[k1 v1] o IH]; [done|]. cbn [Obj.get no_index_keys forallb fst].
    destruct (decide (k1 = k)) as [->|Hne].
    + by rewrite Hk.
    + intros G [_ H]%andb_true_iff. by apply IH.
  - rewrite bool_decide_false by (intros ->; discriminate Hk).
    rewrite Hk. destruct (params_of g w) as [|[k1 v1] o]; [done|].
    cbn [no_index_keys forallb fst] in Hix. cbn [Obj.insert_index].
    by destruct (Obj.array_index k1).
Qed.

Lemma index_key_goes_first_witness :
  Obj.array_index (u "10") = Some 10
  ∧ params_of sample_gateway
      (Gateway.addParams [(u "10", VNum 1)] (sample_gateway, sample_world)).2.2
    = [(u "10", VNum 1); (u "retmode", VStr (u "json")); (u "term", VStr (u "a&"))].
Proof.
  split; [reflexivity|].
  rewrite (index_key_goes_first (u "10") 10 (VNum 1) sample_gateway sample_world);
    by vm_compute.
Defined.

(** ** The URL of a search *)

Lemma number_value_unescaped d :
  forallb unescaped (ToString (number_value d)) = true.
Proof.
  destruct d as [z|[|]]; cbn [number_value ToString];
    [apply number_to_string_unescaped|reflexivity|reflexivity].
Qed.

(** X26. For every query whose text encodeURI leaves alone and all
    integer-valued doubles start and end, the search gateway builds the
    esearch URL with the query, start and the double [end - start] as
    Number::toString prints them: a negative difference with its sign, a
    difference from 10^21 on in exponent form. *)
Theorem pubmedSearch_url q start end_ w :
  forallb unescaped (ToString q) = true →
  Double.is_double start = true →
  Double.is_double end_ = true →
  ∃ g w',
    pubmedSearch q start end_ w = (Normal g, w')
    ∧ (Gateway.generateUrl (g, w')).1
      = Normal (u "http://eutils.ncbi.nlm.nih.gov/entrez/eutils/esearch.fcgi?db=pubmed&term="
                ++ ToString q
                ++ u "&retstart=" ++ number_to_string start
                ++ u "&retmax=" ++ ToString (number_value (Double.sub end_ start))
                ++ u "&retmode=json").
Proof.
  intros Hq _ _. unfold pubmedSearch.
  destruct (new_gateway_spec
              [(u "db", VStr (u "pubmed")); (u "term", q);
               (u "retstart", VNum start);
               (u "retmax", number_value (Double.sub end_ start))]
              (λ p, Args.Make None None (Some p) None (Some (u "esearch"))) w)
    as (l & fp & w' & Hrun & Hl & Hd & _); [done|].
  eexists _, w'. split; [exact Hrun|].
  rewrite generateUrl_run. cbn [fst]. unfold params_of. cbn [Gateway.settings].
  rewrite Hl, Hd.
  change (Obj.set _ _ _) with
    [(u "db", VStr (u "pubmed")); (u "term", q);
     (u "retstart", VNum start);
     (u "retmax", number_value (Double.sub end_ start));
     (u "retmode", VStr (u "json"))].
  rewrite raw_url_query by done. unfold encodeURI.
  change (Settings.method _) with (u "esearch").
  assert (forallb unescaped
            (base_path (u "esearch")
             ++ query [(u "db", VStr (u "pubmed")); (u "term", q);
                       (u "retstart", VNum start);
                       (u "retmax", number_value (Double.sub end_ start));
                       (u "retmode", VStr (u "json"))]) = true) as Hall.
  { rewrite forallb_app. apply andb_true_iff. split; [reflexivity|].
    apply unescaped_query.
    repeat constructor; cbn [fst snd]; try done;
      [apply number_to_string_unescaped | apply number_value_unescaped]. }
  rewrite (Encode_unescaped _ Hall). reflexivity.
Qed.

Lemma pubmedSearch_url_witness :
  forallb unescaped (ToString (VStr (u "cancer"))) = true
  ∧ Double.is_double 0 = true
  ∧ Double.is_double 1000000000000000000000 = true
  ∧ ∃ g w',
      pubmedSearch (VStr (u "cancer")) 0 1000000000000000000000 empty_world
      = (Normal g, w')
      ∧ (Gateway.generateUrl (g, w')).1
        = Normal (u "http://eutils.ncbi.nlm.nih.gov/entrez/eutils/esearch.fcgi?db=pubmed&term=cancer&retstart=0&retmax=1e+21&retmode=json").
Proof.
  split; [reflexivity|]. split; [reflexivity|]. split; [by vm_compute|].
  destruct (pubmedSearch_url (VStr (u "cancer")) 0 1000000000000000000000
              empty_world eq_refl eq_refl) as (g & w' & Hrun & Hurl);
    [by vm_compute|].
  exists g, w'. split; [exact Hrun|]. rewrite Hurl. by vm_compute.
Defined.

(** ** Numbers at the edges *)

(** [-] rounds to the nearest double, ties to even, and overflows to an
    infinity; Number::toString prints the shortest digits, in exponent
    form from 10^21 on. *)
Lemma double_examples :
  Double.sub 9007199254740991 (-2) = Double.Finite 9007199254740992
  ∧ Double.is_double 9007199254740993 = false
  ∧ Double.round (2 ^ 1024) = Double.Infinity false
  ∧ number_to_string 0 = u "0"
  ∧ number_to_string (-5) = u "-5"
  ∧ number_to_string 9007199254740992 = u "9007199254740992"
  ∧ number_to_string (2 ^ 69) = u "590295810358705700000"
  ∧ number_to_string (10 ^ 21) = u "1e+21"
  ∧ number_to_string (2 ^ 70) = u "1.1805916207174113e+21"
  ∧ number_to_string (- (2 ^ 1024 - 2 ^ 971)) = u "-1.7976931348623157e+308".
Proof. repeat split; by vm_compute. Qed.
